(** * go-api: client for the Cacophony API server

    A shallow embedding of the session code ([NewAPI], [register],
    [authenticate], the transport helpers) and of the lock-protected
    credential store ([LockSafeConfig]) together with the properties
    of their documented behaviour, followed by the device identity
    file ([GetConfig], [updateConfNameAndGroup]), the host files
    ([updateHostnameFiles]) and the remaining transport operations.

    Go values are modelled as follows.
    - [string] and [[]byte] are [string]; [int] is [Z] (no arithmetic is
      performed on the integers that occur here, only comparisons and
      decimal printing).
    - an [error] result is [option error], [None] being Go's [nil];
      a [(T, error)] pair whose value is only meaningful when the error
      is nil is a [result T].
    - a method with a pointer receiver takes the receiver's current state
      and returns its new state next to the Go results.
    - everything outside the process (file system, HTTP peers, the flock
      system call) and the serialisation libraries are reached through
      the state monad [M] over [World] and the oracle record [Env]. *)

From Stdlib Require Import ZArith String List Bool Lia DecimalString.
From stdpp Require Import base option strings gmap.

Local Open Scope Z_scope.

(** ** Errors *)

Inductive Errno := ENOENT | EISDIR | ENOTDIR.

(** [Error] is the API error of the package: a message and whether the
    failure is permanent.  Its declaration is outside the files at hand;
    the two fields are those of the literal in [handleHTTPResponse].
    [errorString] stands for the values built by [errors.New] and
    [fmt.Errorf] and for errors of the network and serialisation
    libraries, [pathError] for [*os.PathError]. *)
Record Error := mkError { message : string; permanent : bool }.

Inductive error :=
| errorString (s : string)
| pathError (op path : string) (errno : Errno)
| apiError (e : Error).

Definition errors_New (s : string) : error := errorString s.
Definition fmt_Errorf (s : string) : error := errorString s.

Definition Errno_text (e : Errno) : string :=
  match e with
  | ENOENT => "no such file or directory"
  | EISDIR => "is a directory"
  | ENOTDIR => "not a directory"
  end.

(** The [Error()] method of each error value. *)
Definition Error_text (e : error) : string :=
  match e with
  | errorString s => s
  | pathError op path errno => op +:+ " " +:+ path +:+ ": " +:+ Errno_text errno
  | apiError e => message e
  end.

Definition os_IsNotExist (err : option error) : bool :=
  match err with
  | Some (pathError _ _ ENOENT) => true
  | _ => false
  end.

(** Modelled from the spec: [temporaryError] is declared outside the
    files at hand; section 4.4 and section 7 of the specification
    describe it as wrapping an error into the API error of the
    *temporary* kind, keeping its text. *)
Definition temporaryError (err : error) : Error :=
  {| message := Error_text err; permanent := false |}.

Inductive result (A : Type) :=
| Ok (a : A)
| Err (e : error).
Arguments Ok {A} a.
Arguments Err {A} e.

(** [%d] of [fmt] on an [int]. *)
Definition itoa (n : Z) : string := NilZero.string_of_int (Z.to_int n).

(** ** The world outside the process *)

(** An [io.ReadCloser]: the bytes it delivers and the error, if any,
    that ends the stream in place of [io.EOF]. *)
Record ReadCloser := mkBody { data : string; readErr : option error }.

Definition ioutil_ReadAll (r : ReadCloser) : string * option error :=
  (data r, readErr r).

Record Request := mkRequest {
  Method : string;
  URL : string;
  Header : gmap string string;
  ReqBody : string
}.

Record Response := mkResponse { StatusCode : Z; Body : ReadCloser }.

Inductive Event :=
| EvRandString (n : Z)
| EvHTTP (req : Request).

Inductive node :=
| File (content : string) (perm : Z)
| Dir.

(** [umask] is the file mode creation mask of the process: a file is
    created with the permission bits asked for, less those of the mask. *)
Record World := mkWorld {
  fs : gmap string node;
  events : list Event;
  umask : Z
}.

Definition umask_022 : Z := 18.

Record tokenResponse := mkTokenResponse {
  Success : bool;
  Messages : list string;
  Token : string
}.

Record PrivateConfig := mkPrivateConfig {
  Password : string;
  DeviceID : Z
}.

Inductive LockKind := Exclusive | Shared.

(** What the program does not compute itself.  Each oracle that stands
    for an interaction receives the history, so that its answers may
    change over time. *)
Record Env := mkEnv {
  (* randString, declared outside the files at hand *)
  rand_string : list Event → Z → string;
  (* one HTTP exchange: a transport error or the response *)
  http_exchange : list Event → Request → result Response;
  (* url parsing inside http.NewRequest *)
  url_ok : string → bool;
  (* encoding/json: Marshal on map[string]string, which has no failing
     input (keys are sorted, invalid UTF-8 is replaced), and a Decoder
     reading one tokenResponse from a body *)
  json_Marshal : gmap string string → string;
  json_Decode : ReadCloser → result tokenResponse;
  (* yaml.v2 on PrivateConfig: Marshal has no failing input on a struct
     of a string and an int; Unmarshal receives the current pointee *)
  yaml_Marshal : PrivateConfig → string;
  yaml_Unmarshal : string → option PrivateConfig → option PrivateConfig * option error;
  (* flock: the non-blocking attempts (TryLock / TryRLock) that a
     bounded wait repeats until its deadline, as one answer:
     (true, nil) the lock was taken, (false, err) an attempt failed,
     (false, nil) the lock was still held elsewhere at the deadline *)
  flock_try : LockKind → World → bool * option error
}.

(** ** State monad over the world *)

Definition M (A : Type) : Type := World → A * World.

Definition ret {A} (a : A) : M A := λ w, (a, w).

Definition bind {A B} (c : M A) (k : A → M B) : M B :=
  λ w, let (a, w') := c w in k a w'.

Notation "'let*' x ':=' c 'in' k" := (bind c (λ x, k))
  (at level 10, x pattern, c at level 100, k at level 200).

Definition get_world : M World := λ w, (w, w).
Definition emit (e : Event) : M unit :=
  λ w, (tt, {| fs := fs w; events := events w ++ [e]; umask := umask w |}).
Definition set_fs (f : gmap string node) : M unit :=
  λ w, (tt, {| fs := f; events := events w; umask := umask w |}).

(** Go's octal permission literals. *)
Definition perm_0666 : Z := 438.
Definition perm_0600 : Z := 384.

(** *** File system primitives ([os] and [afero] over the OS) *)

Definition os_Stat (path : string) : M (option error) :=
  let* w := get_world in
  match fs w !! path with
  | Some _ => ret None
  | None => ret (Some (pathError "stat" path ENOENT))
  end.

Definition slash : Ascii.ascii := Ascii.ascii_of_nat 47.

(** The part of a path before its last slash: [Some ""] is the root,
    [None] the working directory.  Paths are taken as written (no [.]
    or [..] components, no doubled or trailing slash). *)
Fixpoint dirname (path : string) : option string :=
  match path with
  | EmptyString => None
  | String c rest =>
      match dirname rest with
      | Some d => Some (String c d)
      | None => if Ascii.eqb c slash then Some "" else None
      end
  end.

(** Whether the map holds an entry below directory [d]. *)
Definition has_entry_below (files : gmap string node) (d : string) : bool :=
  bool_decide (map_Exists (λ k _, String.prefix (d +:+ "/") k = true) files).

(** Whether a new entry can be made at [path]: its directory has to
    exist.  The root and the working directory always do; another
    directory exists when the map holds it as [Dir] or holds an entry
    below it.  [None] is yes, otherwise the error number of the failing
    [open]. *)
Definition parent_status (files : gmap string node) (path : string) : option Errno :=
  match dirname path with
  | None | Some EmptyString => None
  | Some d =>
      if has_entry_below files d then None
      else match files !! d with
           | Some Dir => None
           | Some (File _ _) => Some ENOTDIR
           | None => Some ENOENT
           end
  end.

(** [open(2)] with [O_CREATE|O_TRUNC] and mode [perm]: an existing file
    is emptied and keeps its permission bits; a new file needs its
    directory and gets [perm &^ umask]. *)
Definition open_truncate (path : string) (perm : Z) : M (option error) :=
  let* w := get_world in
  match fs w !! path with
  | Some Dir => ret (Some (pathError "open" path EISDIR))
  | Some (File _ p) => let* _ := set_fs (<[path := File "" p]> (fs w)) in ret None
  | None =>
      match parent_status (fs w) path with
      | Some errno => ret (Some (pathError "open" path errno))
      | None =>
          let* _ := set_fs (<[path := File "" (Z.ldiff perm (umask w))]> (fs w)) in
          ret None
      end
  end.

(** [os.Create]: truncate or create with mode 0666; the handle is the path. *)
Definition os_Create (path : string) : M (result string) :=
  let* err := open_truncate path perm_0666 in
  match err with
  | Some e => ret (Err e)
  | None => ret (Ok path)
  end.

(** Writing a whole byte string through an open handle. *)
Definition file_write (path : string) (bytes : string) : M unit :=
  let* w := get_world in
  match fs w !! path with
  | Some (File old p) => set_fs (<[path := File (old +:+ bytes) p]> (fs w))
  | _ => ret tt
  end.

(** [io.Copy(out, body)]: what the body delivers reaches the file, and
    the error that ended the stream, if any, is returned. *)
Definition io_Copy (out : string) (body : ReadCloser) : M (option error) :=
  let* _ := file_write out (data body) in
  ret (readErr body).

Definition afero_ReadFile (path : string) : M (result string) :=
  let* w := get_world in
  match fs w !! path with
  | None => ret (Err (pathError "open" path ENOENT))
  | Some Dir => ret (Err (pathError "read" path EISDIR))
  | Some (File c _) => ret (Ok c)
  end.

(** [afero.WriteFile] on the OS file system: open with
    [O_WRONLY|O_CREATE|O_TRUNC] and mode [perm], then write the bytes. *)
Definition afero_WriteFile (path : string) (bytes : string) (perm : Z)
  : M (option error) :=
  let* err := open_truncate path perm in
  match err with
  | Some e => ret (Some e)
  | None => let* _ := file_write path bytes in ret None
  end.

(** ** The API session (package [api], session and transport file) *)

Record CacophonyClient := mkClient {
  group : string;
  name : string;
  password : string;
  token : string;
  justRegistered : bool
}.

(** The [httpClient] field is the connection pool through which the
    requests leave the process; its exchanges are [http_exchange]. *)
Record CacophonyAPI := mkAPI {
  Client : CacophonyClient;
  serverURL : string;
  regURL : string;
  authURL : string
}.

Definition basePath : string := "/api/v1".

Definition set_token (api : CacophonyAPI) (t : string) : CacophonyAPI :=
  {| Client := {| group := group (Client api); name := name (Client api);
                  password := password (Client api); token := t;
                  justRegistered := justRegistered (Client api) |};
     serverURL := serverURL api; regURL := regURL api; authURL := authURL api |}.

Definition set_password (api : CacophonyAPI) (p : string) : CacophonyAPI :=
  {| Client := {| group := group (Client api); name := name (Client api);
                  password := p; token := token (Client api);
                  justRegistered := justRegistered (Client api) |};
     serverURL := serverURL api; regURL := regURL api; authURL := authURL api |}.

Definition set_justRegistered (api : CacophonyAPI) (b : bool) : CacophonyAPI :=
  {| Client := {| group := group (Client api); name := name (Client api);
                  password := password (Client api); token := token (Client api);
                  justRegistered := b |};
     serverURL := serverURL api; regURL := regURL api; authURL := authURL api |}.

(** The two struct literals at the start of [NewAPI]. *)
Definition newSession (serverURL group deviceName password_ : string) : CacophonyAPI :=
  let client := {| group := group; name := deviceName; password := password_;
                   token := ""; justRegistered := false |} in
  {| Client := client; serverURL := serverURL;
     regURL := serverURL +:+ basePath +:+ "/devices";
     authURL := serverURL +:+ "/authenticate_device" |}.

Definition isHTTPSuccess (code : Z) : bool := (200 <=? code) && (code <? 300).

Definition isHTTPClientError (code : Z) : bool := (400 <=? code) && (code <? 500).

Definition handleHTTPResponse (resp : Response) : option error :=
  if negb (isHTTPSuccess (StatusCode resp)) then
    let (body, err) := ioutil_ReadAll (Body resp) in
    match err with
    | Some e =>
        Some (apiError (temporaryError (fmt_Errorf
          ("request failed (" +:+ itoa (StatusCode resp)
             +:+ ") and body read failed: " +:+ Error_text e))))
    | None =>
        Some (apiError
          {| message := "HTTP request failed (" +:+ itoa (StatusCode resp)
                          +:+ "): " +:+ body;
             permanent := isHTTPClientError (StatusCode resp) |})
    end
  else None.

Definition tokenResponse_message (r : tokenResponse) : string :=
  match Messages r with
  | m :: _ => m
  | [] => "unknown"
  end.

Inductive outcome (A : Type) :=
| Returns (a : A)
| Panics.
Arguments Returns {A} a.
Arguments Panics {A}.

Section Session.

Variable env : Env.

Definition randString (n : Z) : M string :=
  let* w := get_world in
  let* _ := emit (EvRandString n) in
  ret (rand_string env (events w) n).

(** One request leaving the process, whatever client sends it. *)
Definition http_send (req : Request) : M (result Response) :=
  let* w := get_world in
  let* _ := emit (EvHTTP req) in
  ret (http_exchange env (events w) req).

Definition http_NewRequest (method url body : string) : result Request :=
  if url_ok env url then
    Ok {| Method := method; URL := url; Header := ∅; ReqBody := body |}
  else Err (errorString ("parse " +:+ url +:+ ": invalid URL")).

Definition Header_Set (req : Request) (k v : string) : Request :=
  {| Method := Method req; URL := URL req;
     Header := <[k := v]> (Header req); ReqBody := ReqBody req |}.

Definition httpClient_Do (req : Request) : M (result Response) := http_send req.

Definition httpClient_Post (url contentType body : string) : M (result Response) :=
  match http_NewRequest "POST" url body with
  | Err e => ret (Err e)
  | Ok req => httpClient_Do (Header_Set req "Content-Type" contentType)
  end.

Definition http_Get (url : string) : M (result Response) :=
  match http_NewRequest "GET" url "" with
  | Err e => ret (Err e)
  | Ok req => httpClient_Do req
  end.

Definition authenticate (api : CacophonyAPI) : M (CacophonyAPI * option error) :=
  if decide (password (Client api) = "") then
    ret (api, Some (errors_New "no password set"))
  else
    (* json.Marshal returns a nil error here, see [json_Marshal] *)
    let payload := json_Marshal env
                     (<["devicename" := name (Client api)]>
                        (<["password" := password (Client api)]> ∅)) in
    let* r := httpClient_Post (authURL api) "application/json" payload in
    match r with
    | Err e => ret (api, Some e)
    | Ok postResp =>
        match handleHTTPResponse postResp with
        | Some e => ret (api, Some e)
        | None =>
            match json_Decode env (Body postResp) with
            | Err e => ret (api, Some (fmt_Errorf ("decode: " +:+ Error_text e)))
            | Ok resp =>
                if negb (Success resp) then
                  ret (api, Some (fmt_Errorf
                         ("failed getting new token: " +:+ tokenResponse_message resp)))
                else ret (set_token api (Token resp), None)
            end
        end
    end.

Definition register (api : CacophonyAPI) : M (CacophonyAPI * option error) :=
  if decide (password (Client api) ≠ "") then
    ret (api, Some (errors_New "already registered"))
  else
    let* password := randString 20 in
    let payload := json_Marshal env
                     (<["group" := group (Client api)]>
                        (<["devicename" := name (Client api)]>
                           (<["password" := password]> ∅))) in
    let* r := httpClient_Post (regURL api) "application/json" payload in
    match r with
    | Err e => ret (api, Some e)
    | Ok postResp =>
        match handleHTTPResponse postResp with
        | Some e => ret (api, Some e)
        | None =>
            match json_Decode env (Body postResp) with
            | Err e => ret (api, Some (fmt_Errorf ("decode: " +:+ Error_text e)))
            | Ok respData =>
                if negb (Success respData) then
                  ret (api, Some (fmt_Errorf
                         ("registration failed: " +:+ tokenResponse_message respData)))
                else
                  ret (set_justRegistered
                         (set_token (set_password api password) (Token respData))
                         true, None)
            end
        end
    end.

(** The result of [NewAPI]: next to the two Go results, [allocated] is
    the [CacophonyAPI] object the call created, in its final state; when
    the call fails the caller receives [nil] and cannot reach it. *)
Record NewAPI_result := mkNewAPI_result {
  allocated : option CacophonyAPI;
  ret_api : option CacophonyAPI;
  ret_err : option error
}.

Definition NewAPI (serverURL group deviceName password_ : string) : M NewAPI_result :=
  if decide (deviceName = "") then
    ret {| allocated := None; ret_api := None;
           ret_err := Some (errors_New "no device name") |}
  else
    let api := newSession serverURL group deviceName password_ in
    if decide (password (Client api) = "") then
      let* (api', err) := register api in
      match err with
      | Some e => ret {| allocated := Some api'; ret_api := None; ret_err := Some e |}
      | None => ret {| allocated := Some api'; ret_api := Some api'; ret_err := None |}
      end
    else
      let* (api', err) := authenticate api in
      match err with
      | Some e => ret {| allocated := Some api'; ret_api := None; ret_err := Some e |}
      | None => ret {| allocated := Some api'; ret_api := Some api'; ret_err := None |}
      end.

Definition getFileFromJWT (api : CacophonyAPI) (jwt path : string) : M (option error) :=
  let* out := os_Create path in
  match out with
  | Err e => ret (Some e)
  | Ok out =>
      let* r := http_Get (serverURL api +:+ basePath +:+ "/signedUrl?jwt=" +:+ jwt) in
      match r with
      | Err e => ret (Some e)
      | Ok resp =>
          match handleHTTPResponse resp with
          | Some e => ret (Some e)
          | None => io_Copy out (Body resp)
          end
      end
  end.

Record FileDetails := mkFileDetails { fd_Name : string; OriginalName : string }.
Record FileInfo := mkFileInfo { Details : FileDetails; Type_ : string }.
Record FileResponse := mkFileResponse { File_ : FileInfo; Jwt : string }.

Definition DownloadFile (api : CacophonyAPI) (fileResponse : FileResponse)
    (filePath : string) : M (option error) :=
  let* err := os_Stat filePath in
  match err with
  | None => ret err
  | Some _ => getFileFromJWT api (Jwt fileResponse) filePath
  end.

(** [GetSchedule] drops the error of [http.NewRequest]; when there is
    one the request is [nil] and setting its header panics. *)
Definition GetSchedule (api : CacophonyAPI) : M (outcome (string * option error)) :=
  match http_NewRequest "GET" (serverURL api +:+ basePath +:+ "schedules") "" with
  | Err _ => ret Panics
  | Ok req =>
      let req := Header_Set req "Authorization" (token (Client api)) in
      let* r := httpClient_Do req in
      match r with
      | Err e => ret (Returns ("", Some e))
      | Ok resp => ret (Returns (ioutil_ReadAll (Body resp)))
      end
  end.

End Session.

(** ** The credential store (package [api], file config.go) *)

Definition lockfile : string := "/var/lock/go-api-priv.lock".

(** [context.DeadlineExceeded], the error of a context whose timeout
    (here [lockTimeout], 5 seconds) has passed. *)
Definition context_DeadlineExceeded : error := errorString "context deadline exceeded".

(** A [flock.Flock] handle: the lock file it is bound to and whether the
    handle holds the exclusive ([l]) or a shared ([r]) lock. *)
Record Flock := mkFlock { flock_path : string; l : bool; r : bool }.

Definition flock_New (path : string) : Flock :=
  {| flock_path := path; l := false; r := false |}.

Definition Flock_Locked (f : Flock) : bool := l f.

Definition Flock_Unlock (f : Flock) : Flock :=
  {| flock_path := flock_path f; l := false; r := false |}.

Record LockSafeConfig := mkLockSafeConfig {
  fileLock : Flock;
  filename : string;
  config : option PrivateConfig
}.

Definition NewLockSafeConfig (filename : string) : LockSafeConfig :=
  {| fileLock := flock_New lockfile; filename := filename; config := None |}.

Definition set_fileLock (c : LockSafeConfig) (f : Flock) : LockSafeConfig :=
  {| fileLock := f; filename := filename c; config := config c |}.

Definition set_config (c : LockSafeConfig) (p : option PrivateConfig) : LockSafeConfig :=
  {| fileLock := fileLock c; filename := filename c; config := p |}.

Definition Unlock (lockSafeConfig : LockSafeConfig) : LockSafeConfig :=
  set_fileLock lockSafeConfig (Flock_Unlock (fileLock lockSafeConfig)).

Section Store.

Variable env : Env.

(** The bounded wait of flock ([tryCtx]): the attempts end as soon as
    one takes the lock or fails; when the deadline passes first, the
    answer is not locked, with the context's error. *)
Definition tryCtx (attempts : bool * option error) : bool * option error :=
  let (ok, err) := attempts in
  if ok || bool_decide (err ≠ None) then (ok, err)
  else (false, Some context_DeadlineExceeded).

(** A bounded lock attempt.  A handle that already holds the lock of the
    requested kind is answered at once; otherwise the outcome is the
    environment's, and the handle records a granted lock. *)
Definition TryLockContext (f : Flock) : M ((bool * option error) * Flock) :=
  if l f then ret ((true, None), f)
  else
    let* w := get_world in
    let (locked, err) := tryCtx (flock_try env Exclusive w) in
    ret ((locked, err),
         if locked then {| flock_path := flock_path f; l := true; r := r f |} else f).

Definition TryRLockContext (f : Flock) : M ((bool * option error) * Flock) :=
  if r f then ret ((true, None), f)
  else
    let* w := get_world in
    let (locked, err) := tryCtx (flock_try env Shared w) in
    ret ((locked, err),
         if locked then {| flock_path := flock_path f; l := l f; r := true |} else f).

Definition GetExLock (lockSafeConfig : LockSafeConfig)
  : M ((bool * option error) * LockSafeConfig) :=
  let* (res, f) := TryLockContext (fileLock lockSafeConfig) in
  ret (res, set_fileLock lockSafeConfig f).

Definition getReadLock (fileLock : Flock) : M ((bool * option error) * Flock) :=
  TryRLockContext fileLock.

(** The part of [Read] after the locking step. *)
Definition Read_file (lockSafeConfig : LockSafeConfig)
  : M ((option PrivateConfig * option error) * LockSafeConfig) :=
  let* r := afero_ReadFile (filename lockSafeConfig) in
  match r with
  | Err e =>
      if os_IsNotExist (Some e) then ret ((None, None), lockSafeConfig)
      else ret ((None, Some e), lockSafeConfig)
  | Ok buf =>
      let (c, err) := yaml_Unmarshal env buf (config lockSafeConfig) in
      let lockSafeConfig := set_config lockSafeConfig c in
      match err with
      | Some e => ret ((None, Some e), lockSafeConfig)
      | None => ret ((config lockSafeConfig, None), lockSafeConfig)
      end
  end.

Definition Read (lockSafeConfig : LockSafeConfig)
  : M ((option PrivateConfig * option error) * LockSafeConfig) :=
  let locked := Flock_Locked (fileLock lockSafeConfig) in
  if bool_decide (locked = false) then
    let* (res, f) := getReadLock (fileLock lockSafeConfig) in
    let lockSafeConfig := set_fileLock lockSafeConfig f in
    let (locked, err) := res in
    if bool_decide (locked = false) || bool_decide (err ≠ None) then
      ret ((None, err), lockSafeConfig)
    else
      let* (res, lockSafeConfig) := Read_file lockSafeConfig in
      (* deferred Unlock *)
      ret (res, Unlock lockSafeConfig)
  else Read_file lockSafeConfig.

Definition Write (lockSafeConfig : LockSafeConfig) (deviceID : Z) (password : string)
  : M (option error) :=
  let conf := {| DeviceID := deviceID; Password := password |} in
  (* yaml.Marshal returns a nil error here, see [yaml_Marshal] *)
  let buf := yaml_Marshal env conf in
  if Flock_Locked (fileLock lockSafeConfig) then
    afero_WriteFile (filename lockSafeConfig) buf perm_0600
  else
    ret (Some (fmt_Errorf ("file is not locked " +:+ filename lockSafeConfig))).

End Store.

(** ** Device identity config and host files (file config.go) *)

Definition DeviceConfigPath : string := "/etc/cacophony/device.yaml".
Definition RegisteredConfigPath : string := "/etc/cacophony/device-priv.yaml".
Definition hostnameFile : string := "/etc/hostname".
Definition hostsFile : string := "/etc/hosts".
Definition perm_0644 : Z := 420.

Definition tab : string := String (Ascii.ascii_of_nat 9) "".
Definition newline : Ascii.ascii := Ascii.ascii_of_nat 10.

(** [fmt.Sprintf(hostsFileFormat, hostname)] with
    [hostsFileFormat = "127.0.0.1\t%s"]. *)
Definition Sprintf_hostsFileFormat (hostname : string) : string :=
  "127.0.0.1" +:+ tab +:+ hostname.

Record Config := mkConfig {
  ServerURL : string;
  Group : string;
  DeviceName : string;
  filePath : string
}.

(** The part of a [Config] that YAML sees: the three tagged fields.
    The unexported [filePath] is neither written nor read. *)
Record ConfigDoc := mkConfigDoc {
  doc_server_url : string;
  doc_group : string;
  doc_device_name : string
}.

Definition Config_doc (c : Config) : ConfigDoc :=
  {| doc_server_url := ServerURL c; doc_group := Group c;
     doc_device_name := DeviceName c |}.

Definition Config_load_doc (c : Config) (d : ConfigDoc) : Config :=
  {| ServerURL := doc_server_url d; Group := doc_group d;
     DeviceName := doc_device_name d; filePath := filePath c |}.

(** yaml.v2 on [Config]: Marshal has no failing input on a struct of
    strings; Unmarshal starts from the current field values. *)
Record ConfigCodec := mkConfigCodec {
  yaml_Marshal_Config : ConfigDoc → string;
  yaml_Unmarshal_Config : string → ConfigDoc → ConfigDoc * option error
}.

Definition PrivateConfig_IsValid (conf : PrivateConfig) : bool :=
  bool_decide (Password conf ≠ "") && bool_decide (DeviceID conf ≠ 0).

Definition Config_Validate (conf : Config) : option error :=
  if decide (ServerURL conf = "") then Some (errors_New "server-url missing")
  else if decide (DeviceName conf = "") then Some (errors_New "device-name missing")
  else None.

(** [afero.Exists]: a failing [Stat] means "no" when the file does not
    exist, and is an error otherwise. *)
Definition afero_Exists (path : string) : M (bool * option error) :=
  let* err := os_Stat path in
  match err with
  | None => ret (true, None)
  | Some e => if os_IsNotExist (Some e) then ret (false, None) else ret (false, Some e)
  end.

(** [strings.Split] for a separator of one byte, as it is called here. *)
Fixpoint strings_Split (s : string) (sep : Ascii.ascii) : list string :=
  match s with
  | EmptyString => [""]
  | String c rest =>
      if Ascii.eqb c sep then "" :: strings_Split rest sep
      else match strings_Split rest sep with
           | first :: others => String c first :: others
           | [] => [String c ""]
           end
  end.

Fixpoint strings_Join (elems : list string) (sep : string) : string :=
  match elems with
  | [] => ""
  | [x] => x
  | x :: rest => x +:+ sep +:+ strings_Join rest sep
  end.

Definition strings_HasPrefix (s pre : string) : bool := String.prefix pre s.

(** The [for i, line := range lines] loop of [updateHostnameFiles]:
    [n] iterations are left, [i] is the index reached; the line is read
    from the slice and the slice is updated in place. *)
Fixpoint replace_loopback_from (hostname : string) (n i : nat) (lines : list string)
  : list string :=
  match n with
  | O => lines
  | S n' =>
      match lines !! i with
      | None => lines
      | Some line =>
          let lines :=
            if strings_HasPrefix line "127.0.0.1"
            then <[i := Sprintf_hostsFileFormat hostname]> lines
            else lines in
          replace_loopback_from hostname n' (S i) lines
      end
  end.

Definition replace_loopback (hostname : string) (lines : list string) : list string :=
  replace_loopback_from hostname (length lines) 0 lines.

Definition updateHostnameFiles (hostname : string) : M (option error) :=
  let* err := afero_WriteFile hostnameFile hostname perm_0644 in
  match err with
  | Some e => ret (Some e)
  | None =>
      let* input := afero_ReadFile hostsFile in
      match input with
      | Err e => ret (Some e)
      | Ok input =>
          let lines := strings_Split input newline in
          let lines := replace_loopback hostname lines in
          let output := strings_Join lines (String newline "") in
          afero_WriteFile hostsFile output perm_0644
      end
  end.

Section Identity.

Variable codec : ConfigCodec.

(** [notRegisteredError] is a package variable declared outside the
    files at hand. *)
Variable notRegisteredError : error.

Definition Config_read (c : Config) : M (Config * option error) :=
  let* r := afero_ReadFile (filePath c) in
  match r with
  | Err e => ret (c, Some e)
  | Ok buf =>
      let (d, err) := yaml_Unmarshal_Config codec buf (Config_doc c) in
      ret (Config_load_doc c d, err)
  end.

Definition Config_write (c : Config) : M (option error) :=
  (* yaml.Marshal returns a nil error here, see [yaml_Marshal_Config] *)
  let buf := yaml_Marshal_Config codec (Config_doc c) in
  afero_WriteFile (filePath c) buf perm_0644.

Definition Config_exists (c : Config) : M (bool * option error) :=
  afero_Exists (filePath c).

Definition GetConfig (filePath_ : string) : M (result Config) :=
  let* (exists_, err) := afero_Exists filePath_ in
  match err with
  | Some e => ret (Err e)
  | None =>
      if negb exists_ then ret (Err notRegisteredError)
      else
        let conf := {| ServerURL := ""; Group := ""; DeviceName := "";
                       filePath := filePath_ |} in
        let* (conf, err) := Config_read conf in
        match err with
        | Some e => ret (Err e)
        | None =>
            match Config_Validate conf with
            | Some e => ret (Err e)
            | None => ret (Ok conf)
            end
        end
  end.

Definition updateConfNameAndGroup (newdevice newgroup filePath_ : string)
  : M (option error) :=
  let* r := GetConfig filePath_ in
  match r with
  | Err e => ret (Some e)
  | Ok conf =>
      let conf := {| ServerURL := ServerURL conf; Group := newgroup;
                     DeviceName := newdevice; filePath := filePath conf |} in
      Config_write conf
  end.

End Identity.

Section PrivateStore.

Variable env : Env.

Definition LoadPrivateConfig : M (option PrivateConfig * option error) :=
  let lockSafeConfig := NewLockSafeConfig RegisteredConfigPath in
  let* (res, _) := Read env lockSafeConfig in
  ret res.

End PrivateStore.

(** ** Further transport operations (session and transport file) *)

Definition API_Password (api : CacophonyAPI) : string := password (Client api).

Definition API_JustRegistered (api : CacophonyAPI) : bool := justRegistered (Client api).

(** One part of a multipart body. *)
Inductive Part :=
| FormField (fieldname value : string)
| FormFile (fieldname filename content : string).

(** What the remaining operations take from libraries.  [V] stands for
    the values ([interface{}]) of a decoded JSON object and [Time] for
    [time.Time].
    - [json_Decode_FileResponse]: a Decoder reading one [FileResponse];
      the struct as the decoder left it, and the error.
    - [json_Unmarshal_object]: [json.Unmarshal] into a nil
      [map[string]interface{}]; [Ok None] is the map left nil (JSON
      [null]).
    - [json_Marshal_object]: [json.Marshal] of such a map.
    - [strings_value]: a [[]string] stored as an [interface{}].
    - [time_RFC3339_UTC]: [t.UTC().Format(time.RFC3339)].
    - [multipart_boundary], [multipart_encode]: the random boundary of
      a [multipart.Writer] and the bytes it produces for the parts
      written before [Close]. *)
Record TransportLib (V Time : Type) := mkTransportLib {
  json_Decode_FileResponse : ReadCloser → FileResponse * option error;
  json_Unmarshal_object : string → result (option (gmap string V));
  json_Marshal_object : gmap string V → result string;
  strings_value : list string → V;
  time_RFC3339_UTC : Time → string;
  multipart_boundary : list Event → string;
  multipart_encode : string → list Part → string
}.
Arguments json_Decode_FileResponse {V Time} _ _.
Arguments json_Unmarshal_object {V Time} _ _.
Arguments json_Marshal_object {V Time} _ _.
Arguments strings_value {V Time} _ _.
Arguments time_RFC3339_UTC {V Time} _ _.
Arguments multipart_boundary {V Time} _ _.
Arguments multipart_encode {V Time} _ _ _.

Section Transport.

Context {V Time : Type}.
Variable env : Env.
Variable lib : TransportLib V Time.

Definition formatTimestamp (t : Time) : string := time_RFC3339_UTC lib t.

(** The [append] loop of [ReportEvent]. *)
Definition format_times (times : list Time) : list string :=
  foldl (λ dateTimes t, dateTimes ++ [formatTimestamp t]) [] times.

(** [http.NewRequest]'s error is dropped, as in [GetSchedule]. *)
Definition GetFileDetails (api : CacophonyAPI) (fileID : Z)
  : M (outcome (option FileResponse * option error)) :=
  match http_NewRequest env "GET"
          (serverURL api +:+ basePath +:+ "/files/" +:+ itoa fileID) "" with
  | Err _ => ret Panics
  | Ok req =>
      let req := Header_Set req "Authorization" (token (Client api)) in
      let* r := httpClient_Do env req in
      match r with
      | Err e => ret (Returns (None, Some e))
      | Ok resp =>
          let (fr, err) := json_Decode_FileResponse lib (Body resp) in
          ret (Returns (Some fr, err))
      end
  end.

(** Storing into the nil map that [json.Unmarshal] leaves for [null]
    panics. *)
Definition ReportEvent (api : CacophonyAPI) (jsonDetails : string) (times : list Time)
  : M (outcome (option error)) :=
  match json_Unmarshal_object lib jsonDetails with
  | Err e => ret (Returns (Some e))
  | Ok details =>
      let dateTimes := format_times times in
      match details with
      | None => ret Panics
      | Some details =>
          let details := <["dateTimes" := strings_value lib dateTimes]> details in
          match json_Marshal_object lib details with
          | Err e => ret (Returns (Some e))
          | Ok jsonAll =>
              match http_NewRequest env "POST"
                      (serverURL api +:+ basePath +:+ "/events") jsonAll with
              | Err e => ret (Returns (Some e))
              | Ok req =>
                  let req := Header_Set req "Content-Type" "application/json" in
                  let req := Header_Set req "Authorization" (token (Client api)) in
                  let* r := httpClient_Do env req in
                  match r with
                  | Err e => ret (Returns (Some (apiError (temporaryError e))))
                  | Ok resp => ret (Returns (handleHTTPResponse resp))
                  end
              end
          end
      end
  end.

(** The multipart writer writes into a [bytes.Buffer], whose writes do
    not fail, so [WriteField] and [CreateFormFile] return nil errors;
    the result of [io.Copy(fw, r)] is dropped by the source. *)
Definition UploadThermalRaw (api : CacophonyAPI) (r : ReadCloser) : M (option error) :=
  let* w := get_world in
  let boundary := multipart_boundary lib (events w) in
  let dataBuf := json_Marshal env (<["type" := "thermalRaw"]> ∅) in
  let buf := multipart_encode lib boundary
               [FormField "data" dataBuf; FormFile "file" "file" (data r)] in
  match http_NewRequest env "POST" (serverURL api +:+ basePath +:+ "/recordings") buf with
  | Err e => ret (Some e)
  | Ok req =>
      let req := Header_Set req "Content-Type"
                   ("multipart/form-data; boundary=" +:+ boundary) in
      let req := Header_Set req "Authorization" (token (Client api)) in
      let* resp := httpClient_Do env req in
      match resp with
      | Err e => ret (Some e)
      | Ok resp => ret (handleHTTPResponse resp)
      end
  end.

End Transport.

(** ** A concrete environment

    A small executable instance of [Env], used to run the embedding on
    concrete inputs.  Its serialisers are a line-oriented encoding of
    the credential and a tagged encoding of the token response; its
    server answers by URL suffix. *)

Module Demo.

Definition nl : string := String (Ascii.ascii_of_nat 10) "".

(** Splitting at the first newline. *)
Fixpoint cut_line (s : string) : string * string :=
  match s with
  | EmptyString => ("", "")
  | String c rest =>
      if Ascii.eqb c (Ascii.ascii_of_nat 10) then ("", rest)
      else let (a, b) := cut_line rest in (String c a, b)
  end.

Fixpoint strip_prefix (p s : string) : option string :=
  match p, s with
  | EmptyString, _ => Some s
  | String a p', String b s' => if Ascii.eqb a b then strip_prefix p' s' else None
  | String _ _, EmptyString => None
  end.

Definition atoi (s : string) : option Z :=
  match NilZero.int_of_string s with
  | Some i => Some (Z.of_int i)
  | None => None
  end.

Definition marshal_yaml (c : PrivateConfig) : string :=
  "password: " +:+ Password c +:+ nl +:+ "device-id: " +:+ itoa (DeviceID c) +:+ nl.

Definition unmarshal_yaml (buf : string) (cur : option PrivateConfig)
  : option PrivateConfig * option error :=
  let (l1, rest) := cut_line buf in
  let (l2, _) := cut_line rest in
  match strip_prefix "password: " l1, strip_prefix "device-id: " l2 with
  | Some p, Some d =>
      match atoi d with
      | Some n => (Some {| Password := p; DeviceID := n |}, None)
      | None => (cur, Some (errorString "yaml: cannot unmarshal device-id"))
      end
  | _, _ => (cur, Some (errorString "yaml: unmarshal errors"))
  end.

(** Token responses travel as [ok:<token>], [fail:<message>] or [fail]. *)
Definition decode_json (body : ReadCloser) : result tokenResponse :=
  match readErr body with
  | Some e => Err e
  | None =>
      match strip_prefix "ok:" (data body), strip_prefix "fail:" (data body) with
      | Some t, _ => Ok {| Success := true; Messages := []; Token := t |}
      | None, Some m => Ok {| Success := false; Messages := [m]; Token := "" |}
      | None, None =>
          if String.eqb (data body) "fail"
          then Ok {| Success := false; Messages := []; Token := "" |}
          else Err (errorString "invalid character")
      end
  end.

Definition marshal_json (m : gmap string string) : string :=
  foldr (λ kv acc, kv.1 +:+ "=" +:+ kv.2 +:+ ";" +:+ acc) "" (map_to_list m).

(** A server that answers every request with [status] and [body]. *)
Definition server (status : Z) (body : ReadCloser) (_ : list Event) (_ : Request)
  : result Response :=
  Ok {| StatusCode := status; Body := body |}.

Definition env (status : Z) (body : ReadCloser) (lock : bool * option error) : Env :=
  {| rand_string := λ _ n, "k3Yq8ZrT1mWx0PbVh5Lc";
     http_exchange := server status body;
     url_ok := λ _, true;
     json_Marshal := marshal_json;
     json_Decode := decode_json;
     yaml_Marshal := marshal_yaml;
     yaml_Unmarshal := unmarshal_yaml;
     flock_try := λ _ _, lock |}.

Definition w0 : World := {| fs := ∅; events := []; umask := umask_022 |}.

End Demo.

(** ** A concrete codec for the identity file *)

Module DemoConfig.

Definition marshal (d : ConfigDoc) : string :=
  "server-url: " +:+ doc_server_url d +:+ Demo.nl
  +:+ "group: " +:+ doc_group d +:+ Demo.nl
  +:+ "device-name: " +:+ doc_device_name d +:+ Demo.nl.

Definition unmarshal (buf : string) (cur : ConfigDoc) : ConfigDoc * option error :=
  let (l1, rest1) := Demo.cut_line buf in
  let (l2, rest2) := Demo.cut_line rest1 in
  let (l3, _) := Demo.cut_line rest2 in
  match Demo.strip_prefix "server-url: " l1, Demo.strip_prefix "group: " l2,
        Demo.strip_prefix "device-name: " l3 with
  | Some u, Some g, Some n =>
      ({| doc_server_url := u; doc_group := g; doc_device_name := n |}, None)
  | _, _, _ => (cur, Some (errorString "yaml: unmarshal errors"))
  end.

Definition codec : ConfigCodec :=
  {| yaml_Marshal_Config := marshal; yaml_Unmarshal_Config := unmarshal |}.

Definition notRegistered : error := errorString "device is not registered".

Definition identity : string :=
  marshal {| doc_server_url := "https://srv"; doc_group := "grp";
             doc_device_name := "dev" |}.

Definition hosts : string :=
  "127.0.0.1" +:+ tab +:+ "localhost" +:+ Demo.nl
  +:+ "127.0.1.1" +:+ tab +:+ "raspberrypi" +:+ Demo.nl
  +:+ "::1" +:+ tab +:+ "ip6-localhost".

Definition w : World :=
  {| fs := <[DeviceConfigPath := File identity perm_0644]>
             (<[hostsFile := File hosts perm_0644]>
                (<[hostnameFile := File "raspberrypi" perm_0644]> ∅));
     events := []; umask := umask_022 |}.

End DemoConfig.

(** Whether byte [c] occurs in [s]. *)
Fixpoint contains_byte (s : string) (c : Ascii.ascii) : bool :=
  match s with
  | EmptyString => false
  | String a rest => Ascii.eqb a c || contains_byte rest c
  end.

(** What the loop of [updateHostnameFiles] does to one line. *)
Definition rewrite_line (hostname line : string) : string :=
  if strings_HasPrefix line "127.0.0.1" then Sprintf_hostsFileFormat hostname else line.

(** ** A concrete library for the transport operations *)

Module DemoTransport.

Definition zero_FileResponse : FileResponse :=
  {| File_ := {| Details := {| fd_Name := ""; OriginalName := "" |}; Type_ := "" |};
     Jwt := "" |}.

(** File responses travel as the bare JWT. *)
Definition decode_FileResponse (body : ReadCloser) : FileResponse * option error :=
  match readErr body with
  | Some e => (zero_FileResponse, Some e)
  | None => ({| File_ := File_ zero_FileResponse; Jwt := data body |}, None)
  end.

(** Objects are [null], [{}] or [{<description>]. *)
Definition unmarshal_object (s : string) : result (option (gmap string (list string))) :=
  if String.eqb s "null" then Ok None
  else match Demo.strip_prefix "{" s with
       | Some "}" => Ok (Some ∅)
       | Some rest => Ok (Some (<["description" := [rest]]> ∅))
       | None => Err (errorString "invalid character")
       end.

Definition marshal_object (m : gmap string (list string)) : result string :=
  Ok (foldr (λ kv acc, kv.1 +:+ "=" +:+ strings_Join kv.2 "," +:+ ";" +:+ acc) ""
        (map_to_list m)).

Definition encode_part (boundary : string) (p : Part) : string :=
  match p with
  | FormField n v => "--" +:+ boundary +:+ " field " +:+ n +:+ ": " +:+ v +:+ Demo.nl
  | FormFile n f c => "--" +:+ boundary +:+ " file " +:+ n +:+ " " +:+ f +:+ ": " +:+ c
                        +:+ Demo.nl
  end.

Definition lib : TransportLib (list string) Z :=
  {| json_Decode_FileResponse := decode_FileResponse;
     json_Unmarshal_object := unmarshal_object;
     json_Marshal_object := marshal_object;
     strings_value := λ l, l;
     time_RFC3339_UTC := λ t, "@" +:+ itoa t;
     multipart_boundary := λ _, "5f2a9c";
     multipart_encode := λ b parts,
       foldr (λ p acc, encode_part b p +:+ acc) ("--" +:+ b +:+ "--") parts |}.

End DemoTransport.

(** ** Vocabulary of the statements *)

(** The exported fields of the [Config] literal in [GetConfig]. *)
Definition blank_doc : ConfigDoc :=
  {| doc_server_url := ""; doc_group := ""; doc_device_name := "" |}.

Definition w_ipv6_hosts : World :=
  {| fs := <[hostsFile := File ("::1" +:+ tab +:+ "localhost" +:+ Demo.nl) perm_0644]> ∅;
     events := []; umask := umask_022 |}.

Definition w_hostname_only : World :=
  {| fs := <[hostnameFile := File "raspberrypi" perm_0644]> ∅; events := []; umask := umask_022 |}.


(** The reading of the classification sentence that quantifies over
    every non-2xx response: the error carries the body and is permanent
    exactly for the 4xx codes. *)
Definition classifies_by_status_alone (resp : Response) : Prop :=
  ∃ e, handleHTTPResponse resp = Some (apiError e)
       ∧ (∃ pre suf, message e = pre +:+ data (Body resp) +:+ suf)
       ∧ (permanent e = true ↔ 400 ≤ StatusCode resp < 500).

Definition resp_404_truncated : Response :=
  {| StatusCode := 404;
     Body := {| data := "devicename in use";
                readErr := Some (errorString "unexpected EOF") |} |}.

(** How [NewAPI] turns the result of the path it ran into its own. *)
Definition NewAPI_return (r : CacophonyAPI * option error) : NewAPI_result :=
  match r.2 with
  | Some e => {| allocated := Some r.1; ret_api := None; ret_err := Some e |}
  | None => {| allocated := Some r.1; ret_api := Some r.1; ret_err := None |}
  end.

(** The one observable step of the authentication path. *)
Definition authentication_event (api : CacophonyAPI) (e : Event) : Prop :=
  match e with
  | EvRandString _ => False
  | EvHTTP req => Method req = "POST" ∧ URL req = authURL api
  end.

(** The request each path sends. *)
Definition authenticate_request (env : Env) (api : CacophonyAPI) : Request :=
  {| Method := "POST"; URL := authURL api;
     Header := <["Content-Type" := "application/json"]> ∅;
     ReqBody := json_Marshal env
                  (<["devicename" := name (Client api)]>
                     (<["password" := password (Client api)]> ∅)) |}.

Definition register_request (env : Env) (api : CacophonyAPI) (w : World) : Request :=
  {| Method := "POST"; URL := regURL api;
     Header := <["Content-Type" := "application/json"]> ∅;
     ReqBody := json_Marshal env
                  (<["group" := group (Client api)]>
                     (<["devicename" := name (Client api)]>
                        (<["password" := rand_string env (events w) 20]> ∅))) |}.

Definition fs_with_recording : World :=
  {| fs := <["/tmp/rec.cptv" := File "old bytes" 420]> ∅; events := []; umask := umask_022 |}.

(** [Read] gets past its locking step when the handle already holds a
    lock or when the shared lock is granted without error. *)
Definition lock_passed (env : Env) (lockSafeConfig : LockSafeConfig) (w : World) : Prop :=
  l (fileLock lockSafeConfig) = true
  ∨ r (fileLock lockSafeConfig) = true
  ∨ flock_try env Shared w = (true, None).


Definition priv_path : string := "/etc/cacophony/device-priv.yaml".


Definition fs_corrupt : World :=
  {| fs := <[priv_path := File "password abc" perm_0600]> ∅; events := []; umask := umask_022 |}.

(** A host with the configuration directory in place and no credential
    stored yet. *)
Definition w_provisioned : World :=
  {| fs := <["/etc/cacophony" := Dir]> ∅; events := []; umask := umask_022 |}.


Definition env_lock_granted : Env :=
  Demo.env 200 {| data := ""; readErr := None |} (true, None).

(** An environment in which the lock is held elsewhere for as long as
    a bounded wait lasts: every attempt finds it taken and none fails. *)
Definition env_lock_timeout : Env :=
  Demo.env 200 {| data := ""; readErr := None |} (false, None).

(** The reading of the sentence on lock timeouts: when the shared lock
    is not acquired within the timeout and no attempt reported an error,
    [Read] returns nil config and nil error. *)
Definition timeout_looks_absent
    (env : Env) (lockSafeConfig : LockSafeConfig) (w : World) : Prop :=
  Flock_Locked (fileLock lockSafeConfig) = false →
  r (fileLock lockSafeConfig) = false →
  flock_try env Shared w = (false, None) →
  (Read env lockSafeConfig w).1.1 = (None, None).

(** The value [register] and [authenticate] compute from the answer to
    their request. *)
Definition after_exchange (env : Env) (api : CacophonyAPI) (phrase : string)
    (store : tokenResponse → CacophonyAPI) (r : result Response)
  : CacophonyAPI * option error :=
  match r with
  | Err e => (api, Some e)
  | Ok postResp =>
      match handleHTTPResponse postResp with
      | Some e => (api, Some e)
      | None =>
          match json_Decode env (Body postResp) with
          | Err e => (api, Some (fmt_Errorf ("decode: " +:+ Error_text e)))
          | Ok resp =>
              if negb (Success resp)
              then (api, Some (fmt_Errorf (phrase +:+ tokenResponse_message resp)))
              else (store resp, None)
          end
      end
  end.

(** * Properties *)

(** ** Monad and status-code facts *)

Lemma bind_eq {A B} (c : M A) (k : A → M B) w :
  bind c k w = k (c w).1 (c w).2.
Proof. unfold bind. by destruct (c w). Qed.

Lemma isHTTPSuccess_spec code : isHTTPSuccess code = true ↔ 200 ≤ code < 300.
Proof. unfold isHTTPSuccess. rewrite andb_true_iff, Z.leb_le, Z.ltb_lt. tauto. Qed.

Lemma isHTTPClientError_spec code : isHTTPClientError code = true ↔ 400 ≤ code < 500.
Proof. unfold isHTTPClientError. rewrite andb_true_iff, Z.leb_le, Z.ltb_lt. tauto. Qed.

Lemma handleHTTPResponse_success resp :
  isHTTPSuccess (StatusCode resp) = true → handleHTTPResponse resp = None.
Proof. intros H. unfold handleHTTPResponse. by rewrite H. Qed.

(** ** Opening and writing files *)

Lemma has_entry_below_lookup (files : gmap string node) d k x :
  files !! k = Some x → String.prefix (d +:+ "/") k = true →
  has_entry_below files d = true.
Proof.
  intros Hk Hp. unfold has_entry_below. apply bool_decide_eq_true.
  apply map_Exists_lookup. eauto.
Qed.

Lemma open_truncate_file path perm w old p :
  fs w !! path = Some (File old p) →
  open_truncate path perm w
  = (None, {| fs := <[path := File "" p]> (fs w); events := events w;
              umask := umask w |}).
Proof.
  intros Hf. unfold open_truncate, bind, get_world. by rewrite Hf.
Qed.

Lemma open_truncate_new path perm w :
  fs w !! path = None → parent_status (fs w) path = None →
  open_truncate path perm w
  = (None, {| fs := <[path := File "" (Z.ldiff perm (umask w))]> (fs w);
              events := events w; umask := umask w |}).
Proof.
  intros Hf Hp. unfold open_truncate, bind, get_world. by rewrite Hf, Hp.
Qed.

Lemma open_truncate_no_directory path perm w errno :
  fs w !! path = None → parent_status (fs w) path = Some errno →
  open_truncate path perm w = (Some (pathError "open" path errno), w).
Proof.
  intros Hf Hp. unfold open_truncate, bind, get_world. by rewrite Hf, Hp.
Qed.

Lemma open_truncate_Dir path perm w :
  fs w !! path = Some Dir →
  open_truncate path perm w = (Some (pathError "open" path EISDIR), w).
Proof.
  intros Hf. unfold open_truncate, bind, get_world. by rewrite Hf.
Qed.

Lemma afero_WriteFile_file path bytes perm w old p :
  fs w !! path = Some (File old p) →
  afero_WriteFile path bytes perm w
  = (None, {| fs := <[path := File bytes p]> (fs w); events := events w;
              umask := umask w |}).
Proof.
  intros Hf. unfold afero_WriteFile. rewrite bind_eq.
  rewrite (open_truncate_file path perm w old p Hf). cbn [fst snd].
  unfold file_write, bind, get_world, set_fs, ret. cbn [fs events umask].
  rewrite lookup_insert_eq. cbn [fs events umask].
  by rewrite insert_insert_eq.
Qed.

Lemma afero_WriteFile_new path bytes perm w :
  fs w !! path = None → parent_status (fs w) path = None →
  afero_WriteFile path bytes perm w
  = (None, {| fs := <[path := File bytes (Z.ldiff perm (umask w))]> (fs w);
              events := events w; umask := umask w |}).
Proof.
  intros Hf Hp. unfold afero_WriteFile. rewrite bind_eq.
  rewrite (open_truncate_new path perm w Hf Hp). cbn [fst snd].
  unfold file_write, bind, get_world, set_fs, ret. cbn [fs events umask].
  rewrite lookup_insert_eq. cbn [fs events umask].
  by rewrite insert_insert_eq.
Qed.

Lemma afero_WriteFile_failure path bytes perm w e :
  (afero_WriteFile path bytes perm w).1 = Some e →
  afero_WriteFile path bytes perm w = (Some e, w)
  ∧ (fs w !! path = Some Dir
     ∨ fs w !! path = None ∧ parent_status (fs w) path ≠ None).
Proof.
  destruct (fs w !! path) as [[old p|]|] eqn:Hf.
  - by rewrite (afero_WriteFile_file path bytes perm w old p Hf).
  - unfold afero_WriteFile. rewrite bind_eq, (open_truncate_Dir path perm w Hf).
    cbn. intros [= <-]. split; [done | by left].
  - destruct (parent_status (fs w) path) as [errno|] eqn:Hp.
    + unfold afero_WriteFile.
      rewrite bind_eq, (open_truncate_no_directory path perm w errno Hf Hp).
      cbn. intros [= <-]. split; [done | by right].
    + by rewrite (afero_WriteFile_new path bytes perm w Hf Hp).
Qed.

(** What a successful write leaves, and where it may have been made. *)
Lemma afero_WriteFile_Ok path bytes perm w w1 :
  afero_WriteFile path bytes perm w = (None, w1) →
  ∃ p, w1 = {| fs := <[path := File bytes p]> (fs w); events := events w;
               umask := umask w |}
       ∧ ((∃ old, fs w !! path = Some (File old p))
          ∨ (fs w !! path = None ∧ parent_status (fs w) path = None
             ∧ p = Z.ldiff perm (umask w))).
Proof.
  destruct (fs w !! path) as [[old p|]|] eqn:Hf.
  - rewrite (afero_WriteFile_file path bytes perm w old p Hf).
    intros [= <-]. exists p. split; [done |]. left. by exists old.
  - unfold afero_WriteFile. rewrite bind_eq, (open_truncate_Dir path perm w Hf). done.
  - destruct (parent_status (fs w) path) as [errno|] eqn:Hp.
    + unfold afero_WriteFile.
      rewrite bind_eq, (open_truncate_no_directory path perm w errno Hf Hp). done.
    + rewrite (afero_WriteFile_new path bytes perm w Hf Hp).
      intros [= <-]. eexists. split; [done |]. by right.
Qed.

(** ** HTTP failures: [handleHTTPResponse] *)

(** C7, counterexample: a 404 whose body cannot be read to its end is
    reported as a temporary error that names the read failure, not the
    body. *)
Lemma handleHTTPResponse_404_truncated :
  handleHTTPResponse resp_404_truncated
    = Some (apiError
        {| message := "request failed (404) and body read failed: unexpected EOF";
           permanent := false |})
  ∧ ¬ classifies_by_status_alone resp_404_truncated.
Proof.
  split; [reflexivity |].
  intros (e & He & _ & Hperm).
  vm_compute in He. injection He as <-.
  cbn in Hperm. destruct Hperm as [_ Hperm].
  discriminate Hperm. lia.
Qed.

(** C7 (amended): for a response with a non-2xx status code,
    [handleHTTPResponse] returns an API error.  When the body is read to
    its end the message is "HTTP request failed (<code>): <body>" and the
    error is permanent exactly when the code is in [400,500), temporary
    for every other code; when reading the body fails the error is
    temporary whatever the code and its message reports the read
    failure in place of the body. *)
Theorem handleHTTPResponse_non2xx (resp : Response) :
  isHTTPSuccess (StatusCode resp) = false →
  ∃ e, handleHTTPResponse resp = Some (apiError e) ∧
    match readErr (Body resp) with
    | None =>
        message e = "HTTP request failed (" +:+ itoa (StatusCode resp) +:+ "): "
                      +:+ data (Body resp)
        ∧ (permanent e = true ↔ 400 ≤ StatusCode resp < 500)
    | Some rerr =>
        message e = "request failed (" +:+ itoa (StatusCode resp)
                      +:+ ") and body read failed: " +:+ Error_text rerr
        ∧ permanent e = false
    end.
Proof.
  intros Hcode. unfold handleHTTPResponse, ioutil_ReadAll.
  rewrite Hcode. cbn [negb].
  destruct (readErr (Body resp)) as [rerr|]; eexists; (split; [reflexivity |]); cbn.
  - split; reflexivity.
  - split; [reflexivity | apply isHTTPClientError_spec].
Qed.

Lemma handleHTTPResponse_non2xx_witness :
  ∃ e, handleHTTPResponse
         {| StatusCode := 503; Body := {| data := "try later"; readErr := None |} |}
       = Some (apiError e)
       ∧ message e = "HTTP request failed (503): try later"
       ∧ (permanent e = true ↔ 400 ≤ 503 < 500).
Proof.
  exact (handleHTTPResponse_non2xx
           {| StatusCode := 503; Body := {| data := "try later"; readErr := None |} |}
           eq_refl).
Defined.

(** ** Session construction: [NewAPI], [register], [authenticate] *)

Lemma newSession_urls_differ serverURL group deviceName password_ :
  let api := newSession serverURL group deviceName password_ in
  regURL api ≠ authURL api.
Proof.
  cbn. intros H. apply String.app_inj in H. discriminate H.
Qed.

Section SessionFacts.

Variable env : Env.

Lemma httpClient_Post_effect url contentType body w :
  let out := httpClient_Post env url contentType body w in
  fs out.2 = fs w ∧
  ((events out.2 = events w ∧ ∃ e, out.1 = Err e) ∨
   ∃ req, events out.2 = events w ++ [EvHTTP req]
          ∧ Method req = "POST" ∧ URL req = url
          ∧ Header req !! "Content-Type" = Some contentType
          ∧ ReqBody req = body
          ∧ out.1 = http_exchange env (events w) req).
Proof.
  unfold httpClient_Post, http_NewRequest.
  destruct (url_ok env url); cbn.
  - split; [done |]. right. eexists. split; [done |].
    cbn. by rewrite lookup_insert_eq.
  - split; [done |]. left. eauto.
Qed.

(** What [authenticate] touches: it leaves password and [justRegistered]
    alone, issues at most one request, to [authURL], and draws no random
    string. *)
Lemma authenticate_effect api w :
  let out := authenticate env api w in
  password (Client out.1.1) = password (Client api)
  ∧ justRegistered (Client out.1.1) = justRegistered (Client api)
  ∧ fs out.2 = fs w
  ∧ ∃ evs, events out.2 = events w ++ evs ∧ Forall (authentication_event api) evs.
Proof.
  unfold authenticate.
  destruct (decide (password (Client api) = "")) as [Hp|Hp].
  { cbn. repeat split; try done. exists []. by rewrite app_nil_r. }
  rewrite bind_eq.
  match goal with |- context [httpClient_Post env ?u ?c ?b w] =>
    pose proof (httpClient_Post_effect u c b w) as Hpost;
    destruct (httpClient_Post env u c b w) as [r w'] end.
  cbn in Hpost. destruct Hpost as [Hfs Hev]. cbn [fst snd].
  assert (∃ evs, events w' = events w ++ evs ∧ Forall (authentication_event api) evs)
    as Hevs.
  { destruct Hev as [[Hev _]|(req & Hev & Hm & Hu & _)].
    - exists []. by rewrite app_nil_r.
    - exists [EvHTTP req]. split; [done |]. by repeat constructor. }
  destruct r as [postResp|e]; [| by cbn].
  destruct (handleHTTPResponse postResp); [by cbn |].
  destruct (json_Decode env (Body postResp)) as [resp|e]; [| by cbn].
  destruct (Success resp); by cbn.
Qed.

Lemma NewAPI_register serverURL group deviceName w :
  deviceName ≠ "" →
  let reg := register env (newSession serverURL group deviceName "") w in
  NewAPI env serverURL group deviceName "" w = (NewAPI_return reg.1, reg.2).
Proof.
  intros Hd. unfold NewAPI.
  destruct (decide (deviceName = "")) as [|_]; [done |].
  cbn [newSession Client password].
  destruct (decide ("" = "")) as [_|]; [| done].
  cbn zeta. rewrite bind_eq.
  destruct (register env _ w) as [[api' [e|]] w']; reflexivity.
Qed.

Lemma NewAPI_authenticate serverURL group deviceName password_ w :
  deviceName ≠ "" → password_ ≠ "" →
  let auth := authenticate env (newSession serverURL group deviceName password_) w in
  NewAPI env serverURL group deviceName password_ w = (NewAPI_return auth.1, auth.2).
Proof.
  intros Hd Hp. unfold NewAPI.
  destruct (decide (deviceName = "")) as [|_]; [done |].
  cbn [newSession Client password].
  destruct (decide (password_ = "")) as [|_]; [done |].
  cbn zeta. rewrite bind_eq.
  destruct (authenticate env _ w) as [[api' [e|]] w']; reflexivity.
Qed.

End SessionFacts.


(** C3: for a non-empty device name and a non-empty password, [NewAPI]
    draws no random password; whether it returns the session or an
    error, the session it built has the given password and
    [justRegistered] still false. *)
Theorem NewAPI_keeps_given_password
    (env : Env) (serverURL group deviceName password_ : string) (w : World) :
  deviceName ≠ "" → password_ ≠ "" →
  let out := NewAPI env serverURL group deviceName password_ w in
  ∃ api' evs,
    allocated out.1 = Some api'
    ∧ (ret_api out.1 = Some api' ∧ ret_err out.1 = None
       ∨ ret_api out.1 = None ∧ ret_err out.1 ≠ None)
    ∧ password (Client api') = password_
    ∧ justRegistered (Client api') = false
    ∧ events out.2 = events w ++ evs
    ∧ ∀ n, EvRandString n ∉ evs.
Proof.
  intros Hd Hp out. subst out.
  rewrite (NewAPI_authenticate env _ _ _ _ _ Hd Hp).
  destruct (authenticate_effect env (newSession serverURL group deviceName password_) w)
    as (Hpw & Hjr & _ & evs & Hev & Hall).
  destruct (authenticate env _ w) as [[api' err] w']. cbn [fst snd] in *.
  exists api', evs. unfold NewAPI_return. cbn [fst snd].
  destruct err as [e|]; cbn; (repeat split; [| done | done | done |]).
  - by right.
  - intros n Hin. rewrite Forall_forall in Hall. exact (Hall _ Hin).
  - by left.
  - intros n Hin. rewrite Forall_forall in Hall. exact (Hall _ Hin).
Qed.

Lemma NewAPI_keeps_given_password_witness :
  let out := NewAPI (Demo.env 401 {| data := "wrong password"; readErr := None |}
                       (true, None))
               "https://srv" "grp" "dev" "s3cret" Demo.w0 in
  ∃ api' evs,
    allocated out.1 = Some api'
    ∧ (ret_api out.1 = Some api' ∧ ret_err out.1 = None
       ∨ ret_api out.1 = None ∧ ret_err out.1 ≠ None)
    ∧ password (Client api') = "s3cret"
    ∧ justRegistered (Client api') = false
    ∧ events out.2 = events Demo.w0 ++ evs
    ∧ ∀ n, EvRandString n ∉ evs.
Proof.
  apply (NewAPI_keeps_given_password
           (Demo.env 401 {| data := "wrong password"; readErr := None |} (true, None))
           "https://srv" "grp" "dev" "s3cret" Demo.w0); discriminate.
Defined.

(** ** Application-level failures *)

(** C8: when the server answers a registration or an authentication
    with any 2xx status and a body that decodes to [Success = false],
    the call fails with a plain error (not an API error, so neither
    permanent nor temporary, and the same for every 2xx code) whose text
    is the fixed phrase of the path followed by [message()], and
    [message()] is the first entry of [Messages], or "unknown" when
    there is none.  The session is left as it was. *)
Theorem application_failure_message
    (env : Env) (api : CacophonyAPI) (w : World)
    (postResp : Response) (resp : tokenResponse) :
  isHTTPSuccess (StatusCode postResp) = true →
  json_Decode env (Body postResp) = Ok resp →
  Success resp = false →
  let m := tokenResponse_message resp in
  ((∀ first rest, Messages resp = first :: rest → m = first)
   ∧ (Messages resp = [] → m = "unknown"))
  ∧ (password (Client api) = "" →
     url_ok env (regURL api) = true →
     http_exchange env (events w ++ [EvRandString 20]) (register_request env api w)
       = Ok postResp →
     (register env api w).1
       = (api, Some (errorString ("registration failed: " +:+ m))))
  ∧ (password (Client api) ≠ "" →
     url_ok env (authURL api) = true →
     http_exchange env (events w) (authenticate_request env api) = Ok postResp →
     (authenticate env api w).1
       = (api, Some (errorString ("failed getting new token: " +:+ m)))).
Proof.
  intros Hcode Hdec Hfail m.
  pose proof (handleHTTPResponse_success _ Hcode) as Hok.
  split; [| split].
  - subst m. unfold tokenResponse_message. split.
    + by intros first rest ->.
    + by intros ->.
  - intros Hp Hurl Hex. unfold register.
    destruct (decide (password (Client api) ≠ "")) as [|_]; [done |].
    unfold randString, httpClient_Post, httpClient_Do, http_send, http_NewRequest.
    rewrite Hurl. unfold Header_Set.
    cbn [bind ret get_world emit fst snd events Method URL Header ReqBody].
    unfold register_request in Hex. rewrite Hex, Hok, Hdec, Hfail. reflexivity.
  - intros Hp Hurl Hex. unfold authenticate.
    destruct (decide (password (Client api) = "")) as [|_]; [done |].
    unfold httpClient_Post, httpClient_Do, http_send, http_NewRequest.
    rewrite Hurl. unfold Header_Set.
    cbn [bind ret get_world emit fst snd events Method URL Header ReqBody].
    unfold authenticate_request in Hex. rewrite Hex, Hok, Hdec, Hfail. reflexivity.
Qed.

Lemma application_failure_message_witness :
  let env := Demo.env 200 {| data := "fail:devicename in use"; readErr := None |}
               (true, None) in
  let api := newSession "https://srv" "grp" "dev" "" in
  (register env api Demo.w0).1
    = (api, Some (errorString "registration failed: devicename in use")).
Proof.
  refine (proj1 (proj2 (application_failure_message
            (Demo.env 200 {| data := "fail:devicename in use"; readErr := None |}
               (true, None))
            (newSession "https://srv" "grp" "dev" "") Demo.w0
            {| StatusCode := 200;
               Body := {| data := "fail:devicename in use"; readErr := None |} |}
            {| Success := false; Messages := ["devicename in use"]; Token := "" |}
            eq_refl eq_refl eq_refl)) eq_refl eq_refl eq_refl).
Defined.

(** ** Transport: [DownloadFile] and [GetSchedule] *)

(** C1, at an existing destination: [DownloadFile] leaves the file
    system and the network untouched, and the error it returns is the
    nil error of [os.Stat]. *)
Theorem DownloadFile_existing_path_returns_nil
    (env : Env) (api : CacophonyAPI) (fileResponse : FileResponse)
    (filePath : string) (w : World) :
  is_Some (fs w !! filePath) →
  DownloadFile env api fileResponse filePath w = (None, w).
Proof.
  intros [n Hn]. unfold DownloadFile, os_Stat, bind, get_world.
  rewrite Hn. reflexivity.
Qed.


Lemma DownloadFile_existing_path_returns_nil_witness :
  DownloadFile (Demo.env 200 {| data := "new bytes"; readErr := None |} (true, None))
    (newSession "https://srv" "grp" "dev" "pw")
    {| File_ := {| Details := {| fd_Name := "rec"; OriginalName := "rec.cptv" |};
                   Type_ := "audio" |};
       Jwt := "e30.e30.sig" |}
    "/tmp/rec.cptv" fs_with_recording
  = (None, fs_with_recording).
Proof.
  apply DownloadFile_existing_path_returns_nil.
  exists (File "old bytes" 420). vm_compute. reflexivity.
Defined.

(** C9, the request of [GetSchedule]: one GET carrying the session token
    under [Authorization], to the server URL followed by
    "/api/v1schedules" -- the base path and "schedules" with no slash in
    between -- which is never the schedules path
    "<server>/api/v1/schedules". *)
Theorem GetSchedule_request_url (env : Env) (api : CacophonyAPI) (w : World) :
  url_ok env (serverURL api +:+ "/api/v1schedules") = true →
  ∃ req, events (GetSchedule env api w).2 = events w ++ [EvHTTP req]
         ∧ Method req = "GET"
         ∧ Header req !! "Authorization" = Some (token (Client api))
         ∧ URL req = serverURL api +:+ "/api/v1schedules"
         ∧ URL req ≠ serverURL api +:+ "/api/v1/schedules".
Proof.
  intros Hurl. unfold GetSchedule, http_NewRequest.
  change (basePath +:+ "schedules") with "/api/v1schedules".
  rewrite Hurl. unfold httpClient_Do, http_send.
  cbn [bind ret get_world emit fst snd events].
  eexists. split.
  { match goal with |- context [http_exchange env ?h ?r] =>
      destruct (http_exchange env h r) end; reflexivity. }
  cbn. split; [done |]. split; [by rewrite lookup_insert_eq |].
  split; [done |].
  intros H. apply String.app_inj in H. discriminate H.
Qed.

Lemma GetSchedule_request_url_witness :
  ∃ req, events (GetSchedule
                   (Demo.env 404 {| data := "Not Found"; readErr := None |} (true, None))
                   (newSession "https://srv" "grp" "dev" "pw") Demo.w0).2
           = events Demo.w0 ++ [EvHTTP req]
         ∧ Method req = "GET"
         ∧ Header req !! "Authorization" = Some ""
         ∧ URL req = "https://srv/api/v1schedules"
         ∧ URL req ≠ "https://srv/api/v1/schedules".
Proof.
  exact (GetSchedule_request_url
           (Demo.env 404 {| data := "Not Found"; readErr := None |} (true, None))
           (newSession "https://srv" "grp" "dev" "pw") Demo.w0 eq_refl).
Defined.

(** ** The credential store: [LockSafeConfig] *)

Section StoreFacts.

Variable env : Env.

Lemma Read_file_absent lsc w :
  fs w !! filename lsc = None →
  Read_file env lsc w = (((None, None), lsc), w).
Proof.
  intros Hf. unfold Read_file, afero_ReadFile, bind, get_world.
  rewrite Hf. reflexivity.
Qed.

Lemma Read_file_present lsc w buf perm :
  fs w !! filename lsc = Some (File buf perm) →
  Read_file env lsc w =
    let (c, err) := yaml_Unmarshal env buf (config lsc) in
    (((match err with Some e => (None, Some e) | None => (c, None) end),
      set_config lsc c), w).
Proof.
  intros Hf. unfold Read_file, afero_ReadFile, bind, get_world.
  rewrite Hf. cbn [ret].
  destruct (yaml_Unmarshal env buf (config lsc)) as [c [e|]]; reflexivity.
Qed.

Lemma Read_file_world lsc w : (Read_file env lsc w).2 = w.
Proof.
  unfold Read_file, afero_ReadFile, bind, get_world.
  destruct (fs w !! filename lsc) as [[buf perm|]|]; cbn [ret]; try reflexivity.
  destruct (yaml_Unmarshal env buf (config lsc)) as [c [e|]]; reflexivity.
Qed.

(** Past the locking step, [Read] answers what reading the file answers. *)
Lemma Read_past_lock lsc w :
  lock_passed env lsc w →
  ∃ lsc', filename lsc' = filename lsc ∧ config lsc' = config lsc
          ∧ (Read env lsc w).1.1 = (Read_file env lsc' w).1.1
          ∧ (Read env lsc w).2 = w.
Proof.
  intros Hlock. unfold Read, Flock_Locked.
  destruct (l (fileLock lsc)) eqn:Hl; cbn [bool_decide decide_rel].
  { rewrite bool_decide_eq_false_2 by done.
    exists lsc. by rewrite Read_file_world. }
  rewrite bool_decide_eq_true_2 by done.
  assert (∃ f, getReadLock env (fileLock lsc) w = (((true, None), f), w)) as [f Hf].
  { unfold getReadLock, TryRLockContext.
    destruct (r (fileLock lsc)) eqn:Hr; [by eexists |].
    destruct Hlock as [Hlock|[Hlock|Hlock]]; [congruence | congruence |].
    unfold bind, get_world. rewrite Hlock. by eexists. }
  rewrite bind_eq, Hf. cbn [fst snd].
  rewrite bool_decide_eq_false_2 by done.
  rewrite bool_decide_eq_false_2 by (intros H; by apply H).
  cbn [orb]. rewrite bind_eq.
  exists (set_fileLock lsc f). split; [done |]. split; [done |].
  pose proof (Read_file_world (set_fileLock lsc f) w) as Hw.
  destruct (Read_file env (set_fileLock lsc f) w) as [[res lsc'] w'].
  cbn in *. by subst.
Qed.

Lemma Read_missing_file lsc w :
  lock_passed env lsc w → fs w !! filename lsc = None →
  (Read env lsc w).1.1 = (None, None).
Proof.
  intros Hlock Hf.
  destruct (Read_past_lock lsc w Hlock) as (lsc' & Hfn & _ & Hres & _).
  rewrite Hres, Read_file_absent; [done | by rewrite Hfn].
Qed.

End StoreFacts.

(** C4: on a handle that does not hold the exclusive lock, [Write] with
    any device id and password returns the error "file is not locked
    <filename>" and leaves the world, hence the credential file, as it
    was. *)
Theorem Write_without_lock
    (env : Env) (lockSafeConfig : LockSafeConfig) (deviceID : Z) (password_ : string)
    (w : World) :
  Flock_Locked (fileLock lockSafeConfig) = false →
  Write env lockSafeConfig deviceID password_ w
    = (Some (errorString ("file is not locked " +:+ filename lockSafeConfig)), w).
Proof.
  intros Hl. unfold Write. rewrite Hl. reflexivity.
Qed.

Lemma Write_without_lock_witness :
  Write (Demo.env 200 {| data := ""; readErr := None |} (true, None))
    (NewLockSafeConfig priv_path) 42 "abc" Demo.w0
  = (Some (errorString "file is not locked /etc/cacophony/device-priv.yaml"), Demo.w0).
Proof.
  exact (Write_without_lock
           (Demo.env 200 {| data := ""; readErr := None |} (true, None))
           (NewLockSafeConfig priv_path) 42 "abc" Demo.w0 eq_refl).
Defined.




Lemma afero_WriteFile_success path bytes perm w w1 :
  afero_WriteFile path bytes perm w = (None, w1) →
  ∃ p, fs w1 !! path = Some (File bytes p).
Proof.
  intros H. apply afero_WriteFile_Ok in H as (p & -> & _).
  exists p. cbn [fs]. by rewrite lookup_insert_eq.
Qed.

Lemma GetExLock_granted env filename_ w wh w0 :
  GetExLock env (NewLockSafeConfig filename_) w = (((true, None), wh), w0) →
  Flock_Locked (fileLock wh) = true ∧ filename wh = filename_ ∧ w0 = w.
Proof.
  unfold GetExLock, TryLockContext, NewLockSafeConfig, flock_New.
  cbn [fileLock l]. unfold bind, get_world, ret.
  destruct (flock_try env Exclusive w) as [[|] [e|]]; cbn; intros H; by simplify_eq.
Qed.

(** C6: write/read round trip.  A handle is granted the exclusive lock
    and [Write]s a device id and a password with success; after the
    release ([Unlock] only clears the writer's handle) a fresh handle for
    the same file is granted the shared lock.  Then, with a YAML library
    that reads back what it wrote for this credential, [Read] returns
    without error a [PrivateConfig] whose [DeviceID] and [Password] are
    the values written. *)
Theorem Write_Read_roundtrip
    (env : Env) (filename_ : string) (deviceID : Z) (password_ : string)
    (w w0 w1 : World) (writer : LockSafeConfig) :
  let conf := {| Password := password_; DeviceID := deviceID |} in
  GetExLock env (NewLockSafeConfig filename_) w = (((true, None), writer), w0) →
  Write env writer deviceID password_ w0 = (None, w1) →
  flock_try env Shared w1 = (true, None) →
  yaml_Unmarshal env (yaml_Marshal env conf) None = (Some conf, None) →
  ∃ c, (Read env (NewLockSafeConfig filename_) w1).1.1 = (Some c, None)
       ∧ DeviceID c = deviceID ∧ Password c = password_.
Proof.
  intros conf Hex Hwrite Hshared Hyaml.
  apply GetExLock_granted in Hex as (Hlocked & Hname & ->).
  unfold Write in Hwrite. rewrite Hlocked, Hname in Hwrite.
  apply afero_WriteFile_success in Hwrite as [p Hfile].
  destruct (Read_past_lock env (NewLockSafeConfig filename_) w1)
    as (lsc' & Hfn & Hcfg & Hres & _).
  { right. right. exact Hshared. }
  exists conf. rewrite Hres.
  rewrite (Read_file_present env lsc' w1 _ p) by (by rewrite Hfn).
  rewrite Hcfg. cbn [config NewLockSafeConfig]. fold conf. rewrite Hyaml.
  by cbn.
Qed.

Lemma Write_Read_roundtrip_witness :
  ∃ c, (Read env_lock_granted (NewLockSafeConfig priv_path)
          (Write env_lock_granted
             (GetExLock env_lock_granted (NewLockSafeConfig priv_path)
                w_provisioned).1.2
             42 "abc" w_provisioned).2).1.1 = (Some c, None)
       ∧ DeviceID c = 42 ∧ Password c = "abc".
Proof.
  apply (Write_Read_roundtrip env_lock_granted priv_path 42 "abc"
           w_provisioned w_provisioned _
           (GetExLock env_lock_granted (NewLockSafeConfig priv_path)
              w_provisioned).1.2).
  - reflexivity.
  - vm_compute. reflexivity.
  - reflexivity.
  - vm_compute. reflexivity.
Defined.

Lemma tryCtx_never_silent attempts : tryCtx attempts ≠ (false, None).
Proof.
  unfold tryCtx. destruct attempts as [[|] [e|]]; cbn; discriminate.
Qed.

(** C10, counterexample: on a fresh handle, when the lock is held
    elsewhere for the whole wait and no attempt reports an error, [Read]
    returns the deadline error of the wait, not nil and nil. *)
Lemma Read_lock_timeout_not_absent :
  (Read env_lock_timeout (NewLockSafeConfig priv_path) fs_corrupt).1.1
    = (None, Some (errorString "context deadline exceeded"))
  ∧ ¬ timeout_looks_absent env_lock_timeout (NewLockSafeConfig priv_path) fs_corrupt.
Proof.
  split; [reflexivity |].
  intros H. specialize (H eq_refl eq_refl eq_refl).
  vm_compute in H. discriminate H.
Qed.

(** C10 (amended): when the handle holds no lock and the shared lock is
    not acquired within the timeout, the lock attempt reports the
    deadline error of its context -- it never answers "not locked" with
    a nil error -- and [Read] returns nil config together with that
    error, touching nothing.  This is not the result [Read] gives, past
    the locking step, for a credential file that does not exist (nil
    config and nil error), so the caller can tell a lock-acquisition
    timeout from the absent state. *)
Theorem Read_lock_timeout_returns_deadline
    (env : Env) (lockSafeConfig : LockSafeConfig) (w : World) :
  Flock_Locked (fileLock lockSafeConfig) = false →
  r (fileLock lockSafeConfig) = false →
  flock_try env Shared w = (false, None) →
  (getReadLock env (fileLock lockSafeConfig) w).1.1
    = (false, Some context_DeadlineExceeded)
  ∧ (Read env lockSafeConfig w).1.1 = (None, Some context_DeadlineExceeded)
  ∧ (Read env lockSafeConfig w).2 = w
  ∧ (∀ f w', (getReadLock env f w').1.1 ≠ (false, None))
  ∧ ∀ other w',
      lock_passed env other w' → fs w' !! filename other = None →
      (Read env other w').1.1 = (None, None)
      ∧ (Read env other w').1.1 ≠ (Read env lockSafeConfig w).1.1.
Proof.
  intros Hl Hr Htry.
  assert (getReadLock env (fileLock lockSafeConfig) w
          = (((false, Some context_DeadlineExceeded), fileLock lockSafeConfig), w))
    as Hget.
  { unfold getReadLock, TryRLockContext. rewrite Hr.
    unfold bind, get_world. by rewrite Htry. }
  assert ((Read env lockSafeConfig w).1.1 = (None, Some context_DeadlineExceeded)
          ∧ (Read env lockSafeConfig w).2 = w) as [Hres Hw].
  { unfold Read. rewrite Hl. rewrite bool_decide_eq_true_2 by done.
    rewrite bind_eq, Hget. cbn [fst snd].
    rewrite bool_decide_eq_true_2 by done. by cbn. }
  split; [by rewrite Hget |]. split; [exact Hres |]. split; [exact Hw |]. split.
  - intros f w'. unfold getReadLock, TryRLockContext.
    destruct (r f); [done |]. unfold bind, get_world.
    pose proof (tryCtx_never_silent (flock_try env Shared w')) as Hne.
    destruct (tryCtx (flock_try env Shared w')) as [locked err]. by cbn.
  - intros other w' Hlock Hf.
    rewrite (Read_missing_file env other w' Hlock Hf), Hres. done.
Qed.

Lemma Read_lock_timeout_returns_deadline_witness :
  (Read env_lock_timeout (NewLockSafeConfig priv_path) fs_corrupt).1.1
    = (None, Some context_DeadlineExceeded)
  ∧ (Read env_lock_timeout (NewLockSafeConfig priv_path) fs_corrupt).2 = fs_corrupt.
Proof.
  pose proof (Read_lock_timeout_returns_deadline env_lock_timeout
                (NewLockSafeConfig priv_path) fs_corrupt eq_refl eq_refl eq_refl) as H.
  exact (conj (proj1 (proj2 H)) (proj1 (proj2 (proj2 H)))).
Defined.

(** * Further properties *)

(** ** Strings: [strings.Split], [strings.Join], [strings.HasPrefix] *)

Lemma strings_Split_nonempty s sep : strings_Split s sep ≠ [].
Proof.
  destruct s as [|c rest]; cbn; [done |].
  destruct (Ascii.eqb c sep); [done |].
  by destruct (strings_Split rest sep).
Qed.

Lemma strings_Join_cons x rest sep :
  rest ≠ [] → strings_Join (x :: rest) sep = x +:+ sep +:+ strings_Join rest sep.
Proof. by destruct rest. Qed.

Lemma strings_Join_Split s sep :
  strings_Join (strings_Split s sep) (String sep "") = s.
Proof.
  induction s as [|c rest IH]; cbn; [done |].
  destruct (Ascii.eqb c sep) eqn:Hc.
  - apply Ascii.eqb_eq in Hc as ->.
    rewrite strings_Join_cons by apply strings_Split_nonempty.
    cbn. by rewrite IH.
  - pose proof (strings_Split_nonempty rest sep) as Hne.
    destruct (strings_Split rest sep) as [|first others]; [done |].
    destruct others as [|second others].
    + cbn in *. by rewrite IH.
    + rewrite strings_Join_cons by done.
      rewrite strings_Join_cons in IH by done.
      cbn. by rewrite <- IH.
Qed.

Lemma strings_Split_no_sep s sep :
  Forall (λ x, contains_byte x sep = false) (strings_Split s sep).
Proof.
  induction s as [|c rest IH]; cbn.
  - by repeat constructor.
  - destruct (Ascii.eqb c sep) eqn:Hc.
    + by constructor.
    + destruct (strings_Split rest sep) as [|first others].
      * repeat constructor. cbn. by rewrite Hc.
      * inversion IH; subst. constructor; [| done]. cbn. by rewrite Hc.
Qed.

Lemma strings_Split_app x s sep :
  contains_byte x sep = false →
  strings_Split (x +:+ String sep s) sep = x :: strings_Split s sep.
Proof.
  induction x as [|c rest IH]; simpl; intros Hx.
  - by rewrite Ascii.eqb_refl.
  - apply orb_false_iff in Hx as [Hc Hrest].
    rewrite Hc, IH by done. done.
Qed.

Lemma strings_Split_single x sep :
  contains_byte x sep = false → strings_Split x sep = [x].
Proof.
  induction x as [|c rest IH]; cbn; intros Hx; [done |].
  apply orb_false_iff in Hx as [Hc Hrest].
  by rewrite Hc, IH.
Qed.

Lemma strings_Split_Join elems sep :
  elems ≠ [] →
  Forall (λ x, contains_byte x sep = false) elems →
  strings_Split (strings_Join elems (String sep "")) sep = elems.
Proof.
  induction elems as [|x rest IH]; [done |].
  intros _ Hall. inversion Hall as [|? ? Hx Hrest]; subst.
  destruct rest as [|y rest].
  - cbn. by apply strings_Split_single.
  - rewrite strings_Join_cons by done.
    change (String sep "" +:+ ?t) with (String sep t).
    rewrite strings_Split_app by done.
    by rewrite IH.
Qed.

(** ** Host files: [updateHostnameFiles] *)

Lemma replace_loopback_from_spec hostname (seen todo : list string) :
  replace_loopback_from hostname (length todo) (length seen) (seen ++ todo)
  = seen ++ map (rewrite_line hostname) todo.
Proof.
  revert seen. induction todo as [|line rest IH]; intros seen; [done |].
  cbn [length replace_loopback_from].
  rewrite list_lookup_middle by done.
  replace (if strings_HasPrefix line "127.0.0.1"
           then <[length seen := Sprintf_hostsFileFormat hostname]> (seen ++ line :: rest)
           else seen ++ line :: rest)
    with ((seen ++ [rewrite_line hostname line]) ++ rest).
  - replace (S (length seen)) with (length (seen ++ [rewrite_line hostname line]))
      by (rewrite length_app; cbn; lia).
    rewrite IH. by rewrite <- app_assoc.
  - unfold rewrite_line. rewrite <- app_assoc. cbn.
    destruct (strings_HasPrefix line "127.0.0.1"); [| done].
    rewrite insert_app_r_alt by done. by rewrite Nat.sub_diag.
Qed.

Lemma replace_loopback_eq_map hostname lines :
  replace_loopback hostname lines = map (rewrite_line hostname) lines.
Proof. exact (replace_loopback_from_spec hostname [] lines). Qed.

(** X5.  The in-place loop over the lines of the hosts file rewrites
    each line on its own: a line that starts with "127.0.0.1" becomes
    "127.0.0.1<TAB><hostname>", every other line is kept, and the
    number and order of the lines do not change. *)
Theorem replace_loopback_map (hostname : string) (lines : list string) :
  replace_loopback hostname lines = map (rewrite_line hostname) lines
  ∧ length (replace_loopback hostname lines) = length lines
  ∧ ∀ i line, lines !! i = Some line →
      replace_loopback hostname lines !! i
      = Some (if strings_HasPrefix line "127.0.0.1"
              then "127.0.0.1" +:+ tab +:+ hostname else line).
Proof.
  rewrite replace_loopback_eq_map. split; [done |]. split; [by rewrite length_map |].
  intros i line Hi. rewrite list_lookup_fmap_Some_2 with (x := line); done.
Qed.

Lemma hostnameFile_ne_hostsFile : hostnameFile ≠ hostsFile.
Proof. discriminate. Qed.

Lemma hostnameFile_parent (files : gmap string node) :
  parent_status files hostnameFile
  = if has_entry_below files "/etc" then None
    else match files !! "/etc" with
         | Some Dir => None
         | Some (File _ _) => Some ENOTDIR
         | None => Some ENOENT
         end.
Proof. reflexivity. Qed.

(** The directory of the hostname file is that of the hosts file. *)
Lemma hostnameFile_parent_of_hosts (files : gmap string node) x :
  files !! hostsFile = Some x → parent_status files hostnameFile = None.
Proof.
  intros Hx. rewrite hostnameFile_parent.
  by rewrite (has_entry_below_lookup files "/etc" hostsFile x Hx).
Qed.

(** [updateHostnameFiles] once the hostname file has been written. *)
Lemma updateHostnameFiles_after_hostname hostname w w' :
  afero_WriteFile hostnameFile hostname perm_0644 w = (None, w') →
  updateHostnameFiles hostname w
  = match fs w' !! hostsFile with
    | Some (File input p) =>
        (None,
         {| fs := <[hostsFile :=
                      File (strings_Join
                              (map (rewrite_line hostname) (strings_Split input newline))
                              (String newline "")) p]> (fs w');
            events := events w'; umask := umask w' |})
    | Some Dir => (Some (pathError "read" hostsFile EISDIR), w')
    | None => (Some (pathError "open" hostsFile ENOENT), w')
    end.
Proof.
  intros Hname. unfold updateHostnameFiles. rewrite bind_eq, Hname. cbn [fst snd].
  rewrite bind_eq. unfold afero_ReadFile, bind at 1 2, get_world.
  destruct (fs w' !! hostsFile) as [[input p|]|] eqn:Hhosts; cbn [ret fst snd]; try done.
  rewrite replace_loopback_eq_map.
  by rewrite (afero_WriteFile_file hostsFile _ perm_0644 w' input p Hhosts).
Qed.

(** The run of [updateHostnameFiles] when the hostname path is not a
    directory and the hosts file can be read. *)
Lemma updateHostnameFiles_run hostname w input p :
  fs w !! hostnameFile ≠ Some Dir →
  fs w !! hostsFile = Some (File input p) →
  ∃ p0,
    (fs w !! hostnameFile = None ∧ p0 = Z.ldiff perm_0644 (umask w)
     ∨ ∃ old, fs w !! hostnameFile = Some (File old p0))
    ∧ updateHostnameFiles hostname w
      = (None,
         {| fs := <[hostsFile :=
                      File (strings_Join
                              (map (rewrite_line hostname) (strings_Split input newline))
                              (String newline "")) p]>
                    (<[hostnameFile := File hostname p0]> (fs w));
            events := events w; umask := umask w |}).
Proof.
  intros Hdir Hhosts.
  destruct (fs w !! hostnameFile) as [[old p0|]|] eqn:Hname; [| done |].
  - exists p0. split; [right; by exists old |].
    rewrite (updateHostnameFiles_after_hostname hostname w _
               (afero_WriteFile_file hostnameFile hostname perm_0644 w old p0 Hname)).
    cbn [fs events umask].
    rewrite lookup_insert_ne by apply hostnameFile_ne_hostsFile.
    by rewrite Hhosts.
  - exists (Z.ldiff perm_0644 (umask w)). split; [by left |].
    rewrite (updateHostnameFiles_after_hostname hostname w _
               (afero_WriteFile_new hostnameFile hostname perm_0644 w Hname
                  (hostnameFile_parent_of_hosts (fs w) _ Hhosts))).
    cbn [fs events umask].
    rewrite lookup_insert_ne by apply hostnameFile_ne_hostsFile.
    by rewrite Hhosts.
Qed.

Lemma rewrite_line_idem hostname line :
  rewrite_line hostname (rewrite_line hostname line) = rewrite_line hostname line.
Proof.
  unfold rewrite_line.
  destruct (strings_HasPrefix line "127.0.0.1") eqn:Hp.
  - by destruct (strings_HasPrefix (Sprintf_hostsFileFormat hostname) "127.0.0.1").
  - by rewrite Hp.
Qed.

Lemma rewrite_line_no_newline hostname line :
  contains_byte hostname newline = false →
  contains_byte line newline = false →
  contains_byte (rewrite_line hostname line) newline = false.
Proof.
  intros Hh Hl. unfold rewrite_line.
  destruct (strings_HasPrefix line "127.0.0.1"); [| done].
  exact Hh.
Qed.

Lemma rewrite_line_no_loopback hostname lines :
  Forall (λ line, strings_HasPrefix line "127.0.0.1" = false) lines →
  map (rewrite_line hostname) lines = lines.
Proof.
  induction 1 as [|line rest Hline _ IH]; [done |].
  cbn [map]. rewrite IH. unfold rewrite_line. by rewrite Hline.
Qed.

Lemma updateHostnameFiles_success_inv hostname w w1 :
  updateHostnameFiles hostname w = (None, w1) →
  fs w !! hostnameFile ≠ Some Dir
  ∧ ∃ input p, fs w !! hostsFile = Some (File input p).
Proof.
  intros Hrun.
  destruct (afero_WriteFile hostnameFile hostname perm_0644 w) as [[e|] w'] eqn:Hname.
  { unfold updateHostnameFiles in Hrun. rewrite bind_eq, Hname in Hrun. done. }
  rewrite (updateHostnameFiles_after_hostname hostname w w' Hname) in Hrun.
  apply afero_WriteFile_Ok in Hname as (p0 & -> & Hwhere).
  cbn [fs] in Hrun.
  rewrite lookup_insert_ne in Hrun by apply hostnameFile_ne_hostsFile.
  split.
  - destruct Hwhere as [[old Hold]|[Hnone _]]; congruence.
  - destruct (fs w !! hostsFile) as [[input p|]|]; [by eauto | done | done].
Qed.

(** X6.  When the hostname path is not a directory and the hosts file
    exists, [updateHostnameFiles] succeeds; afterwards the hostname file
    holds exactly the hostname, the hosts file holds its former lines
    with each "127.0.0.1..." line replaced by "127.0.0.1<TAB><hostname>"
    (same permission bits), and no other path has changed. *)
Theorem updateHostnameFiles_effect
    (hostname : string) (w : World) (input : string) (p : Z) :
  fs w !! hostnameFile ≠ Some Dir →
  fs w !! hostsFile = Some (File input p) →
  let out := updateHostnameFiles hostname w in
  out.1 = None
  ∧ (∃ p0, fs out.2 !! hostnameFile = Some (File hostname p0))
  ∧ fs out.2 !! hostsFile
    = Some (File (strings_Join
                    (map (rewrite_line hostname) (strings_Split input newline))
                    (String newline "")) p)
  ∧ (∀ path, path ≠ hostnameFile → path ≠ hostsFile →
       fs out.2 !! path = fs w !! path)
  ∧ events out.2 = events w.
Proof.
  intros Hdir Hhosts out.
  destruct (updateHostnameFiles_run hostname w input p Hdir Hhosts) as (p0 & _ & Hrun).
  subst out. rewrite Hrun. cbn [fst snd fs events].
  split; [done |]. split.
  { exists p0. rewrite lookup_insert_ne by (symmetry; apply hostnameFile_ne_hostsFile).
    by rewrite lookup_insert_eq. }
  split; [by rewrite lookup_insert_eq |]. split; [| done].
  intros path Hn Hs. by rewrite !lookup_insert_ne.
Qed.

Lemma updateHostnameFiles_effect_witness :
  (updateHostnameFiles "possum-7" DemoConfig.w).1 = None
  ∧ fs (updateHostnameFiles "possum-7" DemoConfig.w).2 !! hostsFile
    = Some (File ("127.0.0.1" +:+ tab +:+ "possum-7" +:+ Demo.nl
                  +:+ "127.0.1.1" +:+ tab +:+ "raspberrypi" +:+ Demo.nl
                  +:+ "::1" +:+ tab +:+ "ip6-localhost") perm_0644).
Proof.
  pose proof (updateHostnameFiles_effect "possum-7" DemoConfig.w DemoConfig.hosts
                perm_0644) as H.
  cbn zeta in H.
  destruct H as (H1 & _ & H3 & _).
  - vm_compute. discriminate.
  - vm_compute. reflexivity.
  - split; [exact H1 |]. rewrite H3. vm_compute. reflexivity.
Defined.

(** X7.  A hosts file none of whose lines starts with "127.0.0.1" is
    written back byte for byte: splitting at newlines and joining again
    loses nothing, whatever the file ends with. *)
Theorem updateHostnameFiles_keeps_other_hosts
    (hostname : string) (w : World) (input : string) (p : Z) :
  fs w !! hostnameFile ≠ Some Dir →
  fs w !! hostsFile = Some (File input p) →
  Forall (λ line, strings_HasPrefix line "127.0.0.1" = false)
         (strings_Split input newline) →
  (updateHostnameFiles hostname w).1 = None
  ∧ fs (updateHostnameFiles hostname w).2 !! hostsFile = Some (File input p).
Proof.
  intros Hdir Hhosts Hnone.
  destruct (updateHostnameFiles_run hostname w input p Hdir Hhosts) as (p0 & _ & ->).
  cbn [fst snd fs]. split; [done |].
  rewrite lookup_insert_eq.
  rewrite (rewrite_line_no_loopback hostname _ Hnone).
  by rewrite strings_Join_Split.
Qed.

Lemma updateHostnameFiles_keeps_other_hosts_witness :
  (updateHostnameFiles "possum-7" w_ipv6_hosts).1 = None
  ∧ fs (updateHostnameFiles "possum-7" w_ipv6_hosts).2 !! hostsFile
    = Some (File ("::1" +:+ tab +:+ "localhost" +:+ Demo.nl) perm_0644).
Proof.
  apply (updateHostnameFiles_keeps_other_hosts "possum-7" w_ipv6_hosts
           ("::1" +:+ tab +:+ "localhost" +:+ Demo.nl) perm_0644).
  - vm_compute. discriminate.
  - vm_compute. reflexivity.
  - vm_compute. repeat constructor.
Defined.

(** X8.  For a hostname without a newline, running
    [updateHostnameFiles] a second time with the same hostname changes
    nothing: after a successful run, the same call succeeds again and
    leaves the world exactly as it found it. *)
Theorem updateHostnameFiles_idempotent (hostname : string) (w w1 : World) :
  contains_byte hostname newline = false →
  updateHostnameFiles hostname w = (None, w1) →
  updateHostnameFiles hostname w1 = (None, w1).
Proof.
  intros Hnl Hfirst.
  destruct (updateHostnameFiles_success_inv hostname w w1 Hfirst)
    as (Hdir & input & p & Hhosts).
  destruct (updateHostnameFiles_run hostname w input p Hdir Hhosts) as (p0 & _ & Hrun).
  rewrite Hrun in Hfirst. injection Hfirst as <-.
  set (lines := map (rewrite_line hostname) (strings_Split input newline)).
  set (output := strings_Join lines (String newline "")).
  set (fs1 := <[hostsFile := File output p]> (<[hostnameFile := File hostname p0]> (fs w))).
  assert (fs1 !! hostnameFile = Some (File hostname p0)) as Hname1.
  { subst fs1. rewrite lookup_insert_ne by (symmetry; apply hostnameFile_ne_hostsFile).
    by rewrite lookup_insert_eq. }
  assert (fs1 !! hostsFile = Some (File output p)) as Hhosts1.
  { subst fs1. by rewrite lookup_insert_eq. }
  destruct (updateHostnameFiles_run hostname {| fs := fs1; events := events w; umask := umask w |} output p)
    as (p0' & Hp0 & Hrun2); cbn [fs].
  { by rewrite Hname1. }
  { exact Hhosts1. }
  rewrite Hrun2. cbn [fs events]. f_equal. f_equal.
  assert (p0' = p0) as ->.
  { destruct Hp0 as [[Hp0 _]|[old Hp0]]; cbn [fs] in Hp0; congruence. }
  assert (strings_Split output newline = lines) as ->.
  { subst output. apply strings_Split_Join.
    - subst lines. pose proof (strings_Split_nonempty input newline).
      by destruct (strings_Split input newline).
    - subst lines. apply Forall_fmap.
      eapply Forall_impl; [apply strings_Split_no_sep |].
      intros line Hline. by apply rewrite_line_no_newline. }
  assert (map (rewrite_line hostname) lines = lines) as ->.
  { subst lines. rewrite <- list_fmap_compose. apply list_fmap_ext.
    intros i x _. apply rewrite_line_idem. }
  fold output.
  rewrite (insert_id (<[hostnameFile:=File hostname p0]> fs1)).
  - by apply insert_id.
  - rewrite lookup_insert_ne by apply hostnameFile_ne_hostsFile. exact Hhosts1.
Qed.

Lemma updateHostnameFiles_idempotent_witness :
  updateHostnameFiles "possum-7" (updateHostnameFiles "possum-7" DemoConfig.w).2
  = (None, (updateHostnameFiles "possum-7" DemoConfig.w).2).
Proof.
  apply (updateHostnameFiles_idempotent "possum-7" DemoConfig.w).
  - reflexivity.
  - vm_compute. reflexivity.
Defined.

(** X9.  The two files are not updated as one: with the directory of
    the two files in place, when the hosts file does not exist,
    [updateHostnameFiles] returns the error of reading it, and the
    hostname file has already been overwritten with the new hostname. *)
Theorem updateHostnameFiles_hosts_missing (hostname : string) (w : World) :
  fs w !! hostnameFile ≠ Some Dir →
  parent_status (fs w) hostnameFile = None →
  fs w !! hostsFile = None →
  let out := updateHostnameFiles hostname w in
  out.1 = Some (pathError "open" hostsFile ENOENT)
  ∧ (∃ p0, fs out.2 !! hostnameFile = Some (File hostname p0))
  ∧ fs out.2 !! hostsFile = None.
Proof.
  intros Hdir Hparent Hhosts out.
  assert (∃ p0, out = (Some (pathError "open" hostsFile ENOENT),
                       {| fs := <[hostnameFile := File hostname p0]> (fs w);
                          events := events w; umask := umask w |})) as [p0 ->].
  { subst out.
    destruct (fs w !! hostnameFile) as [[old p0|]|] eqn:Hname; [| done |].
    - exists p0.
      rewrite (updateHostnameFiles_after_hostname hostname w _
                 (afero_WriteFile_file hostnameFile hostname perm_0644 w old p0 Hname)).
      cbn [fs]. rewrite lookup_insert_ne by apply hostnameFile_ne_hostsFile.
      by rewrite Hhosts.
    - eexists.
      rewrite (updateHostnameFiles_after_hostname hostname w _
                 (afero_WriteFile_new hostnameFile hostname perm_0644 w Hname Hparent)).
      cbn [fs]. rewrite lookup_insert_ne by apply hostnameFile_ne_hostsFile.
      by rewrite Hhosts. }
  cbn [fst snd fs]. split; [done |]. split.
  - exists p0. by rewrite lookup_insert_eq.
  - by rewrite lookup_insert_ne by apply hostnameFile_ne_hostsFile.
Qed.

Lemma updateHostnameFiles_hosts_missing_witness :
  (updateHostnameFiles "possum-7" w_hostname_only).1
    = Some (pathError "open" hostsFile ENOENT)
  ∧ (∃ p0, fs (updateHostnameFiles "possum-7" w_hostname_only).2 !! hostnameFile
           = Some (File "possum-7" p0))
  ∧ fs (updateHostnameFiles "possum-7" w_hostname_only).2 !! hostsFile = None.
Proof.
  apply (updateHostnameFiles_hosts_missing "possum-7" w_hostname_only).
  - vm_compute. discriminate.
  - vm_compute. reflexivity.
  - vm_compute. reflexivity.
Defined.

(** ** Device identity: [GetConfig], [updateConfNameAndGroup] *)

Lemma Config_Validate_ok conf :
  Config_Validate conf = None ↔ ServerURL conf ≠ "" ∧ DeviceName conf ≠ "".
Proof.
  unfold Config_Validate.
  destruct (decide (ServerURL conf = "")) as [Hu|Hu];
    [| destruct (decide (DeviceName conf = "")) as [Hn|Hn]].
  - split; [discriminate | intros [? _]; done].
  - split; [discriminate | intros [_ ?]; done].
  - done.
Qed.

Section IdentityFacts.

Variable codec : ConfigCodec.
Variable notRegisteredError : error.

Lemma GetConfig_absent path w :
  fs w !! path = None →
  GetConfig codec notRegisteredError path w = (Err notRegisteredError, w).
Proof.
  intros Hf. unfold GetConfig, afero_Exists, os_Stat, bind, get_world.
  rewrite Hf. reflexivity.
Qed.

Lemma GetConfig_Dir path w :
  fs w !! path = Some Dir →
  GetConfig codec notRegisteredError path w = (Err (pathError "read" path EISDIR), w).
Proof.
  intros Hf. unfold GetConfig, afero_Exists, os_Stat, bind, get_world.
  rewrite Hf. cbn [ret negb].
  unfold Config_read, afero_ReadFile, bind, get_world. cbn [filePath].
  rewrite Hf. reflexivity.
Qed.

Lemma GetConfig_present path w buf p :
  fs w !! path = Some (File buf p) →
  GetConfig codec notRegisteredError path w =
    (match yaml_Unmarshal_Config codec buf blank_doc with
     | (_, Some e) => Err e
     | (d, None) =>
         let conf := {| ServerURL := doc_server_url d; Group := doc_group d;
                        DeviceName := doc_device_name d; filePath := path |} in
         match Config_Validate conf with
         | Some e => Err e
         | None => Ok conf
         end
     end, w).
Proof.
  intros Hf. unfold GetConfig, afero_Exists, os_Stat, bind, get_world.
  rewrite Hf. cbn [ret negb].
  unfold Config_read, afero_ReadFile, bind, get_world. cbn [filePath].
  rewrite Hf. cbn [ret].
  change (Config_doc _) with blank_doc.
  destruct (yaml_Unmarshal_Config codec buf blank_doc) as [d [e|]]; [done |].
  unfold Config_load_doc. cbn [filePath ret].
  by destruct (Config_Validate _).
Qed.

Lemma GetConfig_Ok_inv path w conf w' :
  GetConfig codec notRegisteredError path w = (Ok conf, w') →
  w' = w
  ∧ filePath conf = path
  ∧ Config_Validate conf = None
  ∧ ∃ buf p, fs w !! path = Some (File buf p)
             ∧ yaml_Unmarshal_Config codec buf blank_doc = (Config_doc conf, None).
Proof.
  destruct (fs w !! path) as [[buf p|]|] eqn:Hf.
  - rewrite (GetConfig_present path w buf p Hf).
    destruct (yaml_Unmarshal_Config codec buf blank_doc) as [d [e|]] eqn:Hd; [done |].
    cbn zeta. destruct (Config_Validate _) eqn:Hv; [done |].
    intros H. simplify_eq. repeat split; try done.
    exists buf, p. split; [done |]. by destruct d.
  - by rewrite (GetConfig_Dir path w Hf).
  - by rewrite (GetConfig_absent path w Hf).
Qed.

Lemma GetConfig_world path w :
  (GetConfig codec notRegisteredError path w).2 = w.
Proof.
  destruct (fs w !! path) as [[buf p|]|] eqn:Hf.
  - by rewrite (GetConfig_present path w buf p Hf).
  - by rewrite (GetConfig_Dir path w Hf).
  - by rewrite (GetConfig_absent path w Hf).
Qed.

End IdentityFacts.



(** X2.  Renaming is not validated.  After a configuration has been
    loaded from a path, [updateConfNameAndGroup] succeeds for every new
    name and group, the empty name included; with a YAML library that
    reads back what it wrote, a following [GetConfig] returns the same
    server URL with the new group and name -- or, when the new name is
    empty, fails with "device-name missing". *)
Theorem updateConfNameAndGroup_then_GetConfig
    (codec : ConfigCodec) (notRegisteredError : error)
    (newdevice newgroup path : string) (w : World) (old : Config) :
  let d := {| doc_server_url := ServerURL old; doc_group := newgroup;
              doc_device_name := newdevice |} in
  GetConfig codec notRegisteredError path w = (Ok old, w) →
  yaml_Unmarshal_Config codec (yaml_Marshal_Config codec d) blank_doc = (d, None) →
  ∃ w1,
    updateConfNameAndGroup codec notRegisteredError newdevice newgroup path w
      = (None, w1)
    ∧ GetConfig codec notRegisteredError path w1
      = (if decide (newdevice = "") then Err (errors_New "device-name missing")
         else Ok {| ServerURL := ServerURL old; Group := newgroup;
                    DeviceName := newdevice; filePath := path |},
         w1).
Proof.
  intros d Hold Hrt.
  pose proof (GetConfig_Ok_inv _ _ _ _ _ _ Hold) as (_ & Hpath & Hvalid & buf & p & Hf & _).
  apply Config_Validate_ok in Hvalid as [Hurl _].
  unfold updateConfNameAndGroup. rewrite bind_eq, Hold. cbn [fst snd].
  unfold Config_write. cbn [filePath Config_doc ServerURL Group DeviceName].
  rewrite Hpath. fold d.
  rewrite (afero_WriteFile_file path _ perm_0644 w buf p Hf).
  eexists. split; [reflexivity |].
  erewrite GetConfig_present by (cbn [fs]; apply lookup_insert_eq).
  change (Config_doc _) with d.
  rewrite Hrt. subst d. cbn [doc_server_url doc_group doc_device_name].
  unfold Config_Validate. cbn [ServerURL DeviceName].
  destruct (decide (ServerURL old = "")); [done |].
  by destruct (decide (newdevice = "")).
Qed.

Lemma updateConfNameAndGroup_then_GetConfig_witness :
  ∃ w1,
    updateConfNameAndGroup DemoConfig.codec DemoConfig.notRegistered
      "" "birds" DeviceConfigPath DemoConfig.w = (None, w1)
    ∧ GetConfig DemoConfig.codec DemoConfig.notRegistered DeviceConfigPath w1
      = (Err (errors_New "device-name missing"), w1).
Proof.
  apply (updateConfNameAndGroup_then_GetConfig DemoConfig.codec DemoConfig.notRegistered
           "" "birds" DeviceConfigPath DemoConfig.w
           {| ServerURL := "https://srv"; Group := "grp"; DeviceName := "dev";
              filePath := DeviceConfigPath |}).
  - vm_compute. reflexivity.
  - vm_compute. reflexivity.
Defined.

(** X3.  [updateConfNameAndGroup] writes nothing unless the current
    configuration loads and validates: when [GetConfig] fails, its error
    is returned and the world is untouched.  In every case no path other
    than the configuration file changes and no request leaves the
    process. *)
Theorem updateConfNameAndGroup_frame
    (codec : ConfigCodec) (notRegisteredError : error)
    (newdevice newgroup path : string) (w : World) :
  let out := updateConfNameAndGroup codec notRegisteredError newdevice newgroup path w in
  (∀ e, (GetConfig codec notRegisteredError path w).1 = Err e → out = (Some e, w))
  ∧ (∀ other, other ≠ path → fs out.2 !! other = fs w !! other)
  ∧ events out.2 = events w.
Proof.
  intros out. subst out. unfold updateConfNameAndGroup. rewrite bind_eq.
  pose proof (GetConfig_world codec notRegisteredError path w) as Hw.
  destruct (GetConfig codec notRegisteredError path w) as [[conf|e] w'] eqn:Hget;
    cbn [fst snd] in *; subst w'.
  - apply GetConfig_Ok_inv in Hget as (_ & Hpath & _).
    split; [done |].
    unfold Config_write. cbn [filePath]. rewrite Hpath.
    destruct (afero_WriteFile path _ perm_0644 w) as [[e|] w1] eqn:Hwrite.
    + pose proof (afero_WriteFile_failure path _ perm_0644 w e
                    (f_equal fst Hwrite)) as [Heq _].
      rewrite Hwrite in Heq. injection Heq as <-. done.
    + apply afero_WriteFile_Ok in Hwrite as (p & -> & _). cbn [snd fs events].
      split; [| done]. intros other Hne. by rewrite lookup_insert_ne.
  - split; [| done]. intros e' He. by simplify_eq.
Qed.

(** ** Sessions: what [register] and [authenticate] store and send *)

Section SessionRuns.

Variable env : Env.

(** The three ways a POST of the session code can end. *)
Lemma httpClient_Post_cases url contentType body w :
  let req := {| Method := "POST"; URL := url;
                Header := <["Content-Type" := contentType]> ∅; ReqBody := body |} in
  (url_ok env url = false
   ∧ ∃ e, httpClient_Post env url contentType body w = (Err e, w))
  ∨ (url_ok env url = true
     ∧ httpClient_Post env url contentType body w
       = (http_exchange env (events w) req,
          {| fs := fs w; events := events w ++ [EvHTTP req]; umask := umask w |})).
Proof.
  unfold httpClient_Post, http_NewRequest.
  destruct (url_ok env url); [right | left; eauto].
  split; [done |]. reflexivity.
Qed.

Lemma authenticate_run api w :
  password (Client api) ≠ "" →
  (url_ok env (authURL api) = false
   ∧ ∃ e, authenticate env api w = ((api, Some e), w))
  ∨ (url_ok env (authURL api) = true
     ∧ authenticate env api w
       = (after_exchange env api "failed getting new token: "
            (λ resp, set_token api (Token resp))
            (http_exchange env (events w) (authenticate_request env api)),
          {| fs := fs w;
             events := events w ++ [EvHTTP (authenticate_request env api)]; umask := umask w |})).
Proof.
  intros Hp. unfold authenticate.
  destruct (decide (password (Client api) = "")) as [|_]; [done |].
  rewrite bind_eq.
  match goal with |- context [httpClient_Post env ?u ?c ?b w] =>
    destruct (httpClient_Post_cases u c b w) as [[Hurl [e He]]|[Hurl He]] end.
  - left. split; [done |]. exists e. by rewrite He.
  - right. split; [done |]. rewrite He. cbn [fst snd].
    fold (authenticate_request env api). unfold after_exchange.
    destruct (http_exchange env (events w) (authenticate_request env api))
      as [postResp|e]; [| done].
    destruct (handleHTTPResponse postResp); [done |].
    destruct (json_Decode env (Body postResp)) as [resp|e]; [| done].
    by destruct (Success resp).
Qed.

Lemma register_run api w :
  password (Client api) = "" →
  let w1 := {| fs := fs w; events := events w ++ [EvRandString 20]; umask := umask w |} in
  let generated := rand_string env (events w) 20 in
  (url_ok env (regURL api) = false
   ∧ ∃ e, register env api w = ((api, Some e), w1))
  ∨ (url_ok env (regURL api) = true
     ∧ register env api w
       = (after_exchange env api "registration failed: "
            (λ resp, set_justRegistered
                       (set_token (set_password api generated) (Token resp)) true)
            (http_exchange env (events w1) (register_request env api w)),
          {| fs := fs w;
             events := events w ++ [EvRandString 20;
                                    EvHTTP (register_request env api w)]; umask := umask w |})).
Proof.
  intros Hp w1 generated. unfold register.
  destruct (decide (password (Client api) ≠ "")) as [|_]; [done |].
  rewrite bind_eq. unfold randString.
  cbn [bind get_world emit ret fst snd].
  fold w1. fold generated. rewrite bind_eq.
  match goal with |- context [httpClient_Post env ?u ?c ?b w1] =>
    destruct (httpClient_Post_cases u c b w1) as [[Hurl [e He]]|[Hurl He]] end.
  - left. split; [done |]. exists e. by rewrite He.
  - right. split; [done |]. rewrite He. cbn [fst snd].
    subst generated. fold (register_request env api w). unfold after_exchange.
    subst w1. cbn [fs events]. rewrite <- app_assoc. cbn [app].
    destruct (http_exchange env _ (register_request env api w))
      as [postResp|e]; [| done].
    destruct (handleHTTPResponse postResp); [done |].
    destruct (json_Decode env (Body postResp)) as [resp|e]; [| done].
    by destruct (Success resp).
Qed.

Lemma after_exchange_failure api phrase store r :
  (after_exchange env api phrase store r).2 ≠ None →
  (after_exchange env api phrase store r).1 = api.
Proof.
  unfold after_exchange.
  destruct r as [postResp|e]; [| done].
  destruct (handleHTTPResponse postResp); [done |].
  destruct (json_Decode env (Body postResp)) as [resp|e]; [| done].
  by destruct (Success resp).
Qed.

Lemma after_exchange_success api phrase store r :
  (after_exchange env api phrase store r).2 = None →
  ∃ postResp resp,
    r = Ok postResp
    ∧ isHTTPSuccess (StatusCode postResp) = true
    ∧ json_Decode env (Body postResp) = Ok resp
    ∧ Success resp = true
    ∧ (after_exchange env api phrase store r).1 = store resp.
Proof.
  unfold after_exchange.
  destruct r as [postResp|e]; [| done].
  destruct (handleHTTPResponse postResp) eqn:Hh; [done |].
  destruct (json_Decode env (Body postResp)) as [resp|e] eqn:Hd; [| done].
  destruct (Success resp) eqn:Hs; [| done].
  intros _. exists postResp, resp. repeat split; try done.
  unfold handleHTTPResponse in Hh.
  destruct (isHTTPSuccess (StatusCode postResp)); [done |].
  cbn in Hh. by destruct (readErr (Body postResp)).
Qed.

End SessionRuns.

(** C2: [NewAPI] with an empty device name fails at once and leaves the
    world as it was (no HTTP call, no random string).  With a device
    name and an empty password exactly the registration path runs: a
    password of length 20 is drawn, then one POST carrying group, device
    name and that password goes to the registration URL, which is never
    the authentication URL, and the result is the one registration
    computes from the answer.  With a device name and a password exactly
    the authentication path runs: no password is drawn, one POST
    carrying device name and the given password goes to the
    authentication URL, which is never the registration URL, and the
    result is the one authentication computes from the answer.  (When
    the URL of the path does not parse, its request is not sent and the
    call fails.) *)
Theorem NewAPI_runs_exactly_one_path
    (env : Env) (serverURL group_ deviceName password_ : string) (w : World) :
  let api := newSession serverURL group_ deviceName password_ in
  let out := NewAPI env serverURL group_ deviceName password_ w in
  let generated := rand_string env (events w) 20 in
  (deviceName = "" →
     out = ({| allocated := None; ret_api := None;
               ret_err := Some (errors_New "no device name") |}, w))
  ∧ (deviceName ≠ "" → password_ = "" →
     fs out.2 = fs w
     ∧ URL (register_request env api w) ≠ authURL api
     ∧ if url_ok env (regURL api) then
         events out.2
           = events w ++ [EvRandString 20; EvHTTP (register_request env api w)]
         ∧ out.1
           = NewAPI_return
               (after_exchange env api "registration failed: "
                  (λ resp, set_justRegistered
                             (set_token (set_password api generated) (Token resp))
                             true)
                  (http_exchange env (events w ++ [EvRandString 20])
                     (register_request env api w)))
       else
         events out.2 = events w ++ [EvRandString 20]
         ∧ allocated out.1 = Some api ∧ ret_api out.1 = None ∧ ret_err out.1 ≠ None)
  ∧ (deviceName ≠ "" → password_ ≠ "" →
     fs out.2 = fs w
     ∧ URL (authenticate_request env api) ≠ regURL api
     ∧ if url_ok env (authURL api) then
         events out.2 = events w ++ [EvHTTP (authenticate_request env api)]
         ∧ out.1
           = NewAPI_return
               (after_exchange env api "failed getting new token: "
                  (λ resp, set_token api (Token resp))
                  (http_exchange env (events w) (authenticate_request env api)))
       else
         events out.2 = events w
         ∧ allocated out.1 = Some api ∧ ret_api out.1 = None ∧ ret_err out.1 ≠ None).
Proof.
  intros api out generated. split; [| split].
  - intros ->. subst out. unfold NewAPI.
    destruct (decide ("" = "")); [reflexivity | done].
  - intros Hd ->. subst out api generated.
    rewrite (NewAPI_register env _ _ _ _ Hd).
    set (api := newSession serverURL group_ deviceName "").
    pose proof (newSession_urls_differ serverURL group_ deviceName "") as Hurls.
    destruct (register_run env api w eq_refl) as [[Hbad [e He]]|[Hgood Hrun]].
    + rewrite Hbad, He. cbn [fst snd fs events NewAPI_return].
      split; [done |]. split; [exact Hurls |]. done.
    + rewrite Hgood, Hrun. cbn [fst snd fs events].
      split; [done |]. split; [exact Hurls |]. done.
  - intros Hd Hp. subst out api.
    rewrite (NewAPI_authenticate env _ _ _ _ _ Hd Hp).
    set (api := newSession serverURL group_ deviceName password_).
    pose proof (newSession_urls_differ serverURL group_ deviceName password_) as Hurls.
    destruct (authenticate_run env api w Hp) as [[Hbad [e He]]|[Hgood Hrun]].
    + rewrite Hbad, He. cbn [fst snd fs events NewAPI_return].
      split; [done |]. split; [by apply not_eq_sym |]. done.
    + rewrite Hgood, Hrun. cbn [fst snd fs events].
      split; [done |]. split; [by apply not_eq_sym |]. done.
Qed.

Lemma NewAPI_runs_exactly_one_path_witness :
  let env := Demo.env 201 {| data := "ok:tok123"; readErr := None |} (true, None) in
  let api := newSession "https://srv" "grp" "dev" "" in
  let out := NewAPI env "https://srv" "grp" "dev" "" Demo.w0 in
  events out.2 = [EvRandString 20; EvHTTP (register_request env api Demo.w0)]
  ∧ ret_err out.1 = None
  ∧ (API_JustRegistered <$> ret_api out.1) = Some true
  ∧ (token ∘ Client <$> ret_api out.1) = Some "tok123".
Proof.
  pose proof (NewAPI_runs_exactly_one_path
                (Demo.env 201 {| data := "ok:tok123"; readErr := None |} (true, None))
                "https://srv" "grp" "dev" "" Demo.w0) as H.
  cbn zeta in H. destruct H as (_ & H & _).
  destruct H as (_ & _ & Hev & Hres); [discriminate | reflexivity |].
  cbn zeta. split; [| split; [| split]].
  - etransitivity; [exact Hev | vm_compute; reflexivity].
  - etransitivity; [exact (f_equal ret_err Hres) | vm_compute; reflexivity].
  - etransitivity;
      [exact (f_equal (λ res, API_JustRegistered <$> ret_api res) Hres)
      | vm_compute; reflexivity].
  - etransitivity;
      [exact (f_equal (λ res, token ∘ Client <$> ret_api res) Hres)
      | vm_compute; reflexivity].
Defined.

Lemma handleHTTPResponse_failure resp :
  isHTTPSuccess (StatusCode resp) = false →
  ∃ e, handleHTTPResponse resp = Some (apiError e).
Proof.
  intros Hc. unfold handleHTTPResponse, ioutil_ReadAll. rewrite Hc. cbn [negb].
  destruct (readErr (Body resp)); by eexists.
Qed.

(** X10.  A successful registration through [NewAPI] stores what it
    sent and what it was answered: the call made one request, a POST to
    "<server>/api/v1/devices" whose body carries the generated password
    under "password"; the answer had a 2xx status and decoded to a token
    response with [Success], and the returned session is marked just
    registered, holds the token of that decoded answer and has the
    generated string as its password. *)
Theorem NewAPI_registration_success
    (env : Env) (serverURL group_ deviceName : string) (w : World) :
  let out := NewAPI env serverURL group_ deviceName "" w in
  let req := register_request env (newSession serverURL group_ deviceName "") w in
  ret_err out.1 = None →
  ∃ api postResp resp,
    ret_api out.1 = Some api
    ∧ events out.2 = events w ++ [EvRandString 20; EvHTTP req]
    ∧ http_exchange env (events w ++ [EvRandString 20]) req = Ok postResp
    ∧ isHTTPSuccess (StatusCode postResp) = true
    ∧ json_Decode env (Body postResp) = Ok resp
    ∧ Success resp = true
    ∧ token (Client api) = Token resp
    ∧ API_JustRegistered api = true
    ∧ API_Password api = rand_string env (events w) 20
    ∧ name (Client api) = deviceName ∧ group (Client api) = group_
    ∧ Method req = "POST" ∧ URL req = serverURL +:+ "/api/v1/devices"
    ∧ ReqBody req
      = json_Marshal env
          (<["group" := group_]>
             (<["devicename" := deviceName]> (<["password" := API_Password api]> ∅))).
Proof.
  intros out req Hok. subst out req.
  destruct (decide (deviceName = "")) as [->|Hd].
  { unfold NewAPI in Hok. by destruct (decide ("" = "")). }
  rewrite (NewAPI_register env _ _ _ _ Hd) in *. cbn [fst snd] in *.
  set (api0 := newSession serverURL group_ deviceName "") in *.
  destruct (register_run env api0 w eq_refl) as [[_ [e He]]|[_ Hrun]].
  { rewrite He in Hok. discriminate Hok. }
  rewrite Hrun in *. cbn [fst snd fs events] in *.
  match type of Hok with context [after_exchange env api0 ?ph ?st ?r] =>
    destruct (after_exchange_success env api0 ph st r) as
      (postResp & resp & Hex & Hcode & Hdec & Hs & Hstore) end.
  { unfold NewAPI_return in Hok.
    by destruct (after_exchange env api0 _ _ _) as [a [e|]]. }
  unfold NewAPI_return.
  destruct (after_exchange env api0 _ _ _) as [api [e|]] eqn:Hafter;
    [discriminate Hok |].
  cbn [fst snd] in *. subst api.
  exists (set_justRegistered
            (set_token (set_password api0 (rand_string env (events w) 20)) (Token resp))
            true), postResp, resp.
  repeat split; done.
Qed.

Lemma NewAPI_registration_success_witness :
  let env := Demo.env 201 {| data := "ok:tok123"; readErr := None |} (true, None) in
  let out := NewAPI env "https://srv" "grp" "dev" "" Demo.w0 in
  ∃ api, ret_api out.1 = Some api
         ∧ token (Client api) = "tok123"
         ∧ API_JustRegistered api = true
         ∧ API_Password api = rand_string env (events Demo.w0) 20.
Proof.
  destruct (NewAPI_registration_success
              (Demo.env 201 {| data := "ok:tok123"; readErr := None |} (true, None))
              "https://srv" "grp" "dev" Demo.w0 eq_refl)
    as (api & postResp & resp & Hapi & _ & Hex & _ & Hdec & _ & Htok & Hjr & Hpw & _).
  exists api. split; [exact Hapi |]. split; [| by split].
  rewrite Htok. vm_compute in Hex. injection Hex as <-.
  vm_compute in Hdec. by injection Hdec as <-.
Defined.

(** X11.  A failed [register] or [authenticate] leaves the session as
    it was: in particular the password generated for a registration that
    fails is not kept.  A successful [authenticate] has sent its request
    and received a 2xx answer that decodes to a token response with
    [Success]; it changes the token to the token of that answer and
    nothing else. *)
Theorem session_unchanged_on_failure (env : Env) (api : CacophonyAPI) (w : World) :
  ((register env api w).1.2 ≠ None → (register env api w).1.1 = api)
  ∧ ((authenticate env api w).1.2 ≠ None → (authenticate env api w).1.1 = api)
  ∧ ((authenticate env api w).1.2 = None →
     ∃ postResp resp,
       http_exchange env (events w) (authenticate_request env api) = Ok postResp
       ∧ isHTTPSuccess (StatusCode postResp) = true
       ∧ json_Decode env (Body postResp) = Ok resp
       ∧ Success resp = true
       ∧ (authenticate env api w).1.1 = set_token api (Token resp)).
Proof.
  split; [| split].
  - destruct (decide (password (Client api) = "")) as [Hp|Hp].
    + destruct (register_run env api w Hp) as [[_ [e ->]]|[_ ->]]; [done |].
      cbn [fst snd]. apply after_exchange_failure.
    + unfold register. by destruct (decide (password (Client api) ≠ "")).
  - destruct (decide (password (Client api) = "")) as [Hp|Hp].
    + unfold authenticate. by destruct (decide (password (Client api) = "")).
    + destruct (authenticate_run env api w Hp) as [[_ [e ->]]|[_ ->]]; [done |].
      cbn [fst snd]. apply after_exchange_failure.
  - destruct (decide (password (Client api) = "")) as [Hp|Hp].
    + unfold authenticate. by destruct (decide (password (Client api) = "")).
    + destruct (authenticate_run env api w Hp) as [[_ [e ->]]|[_ ->]]; [done |].
      cbn [fst snd]. intros Hok.
      destruct (after_exchange_success env _ _ _ _ Hok)
        as (postResp & resp & Hex & Hcode & Hdec & Hs & Hstore).
      by exists postResp, resp.
Qed.

Lemma session_unchanged_on_failure_witness :
  let env := Demo.env 200 {| data := "fail:devicename in use"; readErr := None |}
               (true, None) in
  let api := newSession "https://srv" "grp" "dev" "" in
  (register env api Demo.w0).1.1 = api.
Proof.
  refine (proj1 (session_unchanged_on_failure
            (Demo.env 200 {| data := "fail:devicename in use"; readErr := None |}
               (true, None))
            (newSession "https://srv" "grp" "dev" "") Demo.w0) _).
  vm_compute. discriminate.
Defined.

(** X12.  [NewAPI] keeps nothing on disk and does not retry.  For every
    input the file system is left as it was and the steps of the call
    are these and no others: none for an empty device name; for an empty
    password the drawing of a password of length 20 followed by the
    registration request; for a given password the authentication
    request alone -- the request being left out when its URL does not
    parse.  So no call sends more than one request. *)
Theorem NewAPI_effects
    (env : Env) (serverURL group_ deviceName password_ : string) (w : World) :
  let api := newSession serverURL group_ deviceName password_ in
  let out := NewAPI env serverURL group_ deviceName password_ w in
  fs out.2 = fs w
  ∧ umask out.2 = umask w
  ∧ events out.2
    = events w ++
      (if decide (deviceName = "") then []
       else if decide (password_ = "") then
         EvRandString 20 ::
           (if url_ok env (regURL api) then [EvHTTP (register_request env api w)]
            else [])
       else
         (if url_ok env (authURL api) then [EvHTTP (authenticate_request env api)]
          else [])).
Proof.
  intros api out. subst out api.
  destruct (decide (deviceName = "")) as [->|Hd].
  { unfold NewAPI. destruct (decide ("" = "")); [| done].
    cbn [ret snd]. by rewrite app_nil_r. }
  destruct (decide (password_ = "")) as [->|Hp].
  - rewrite (NewAPI_register env _ _ _ _ Hd). cbn [snd].
    destruct (register_run env (newSession serverURL group_ deviceName "") w eq_refl)
      as [[Hurl [e ->]]|[Hurl ->]]; rewrite Hurl; by cbn [snd fs events umask].
  - rewrite (NewAPI_authenticate env _ _ _ _ _ Hd Hp). cbn [snd].
    destruct (authenticate_run env (newSession serverURL group_ deviceName password_) w Hp)
      as [[Hurl [e ->]]|[Hurl ->]]; rewrite Hurl; cbn [snd fs events umask];
      by rewrite ?app_nil_r.
Qed.

(** X13.  HTTP-level failures of a registration or authentication.  A
    transport error is returned as it is.  A response with a non-2xx
    status is turned into the error of [handleHTTPResponse] without its
    body being decoded, so a 4xx answer fails the call with a permanent
    API error that quotes the body, whatever the body says. *)
Theorem session_http_failure
    (env : Env) (api : CacophonyAPI) (w : World) (r : result Response) :
  match r with
  | Err _ => True
  | Ok postResp => isHTTPSuccess (StatusCode postResp) = false
  end →
  let failure := match r with
                 | Err e => Some e
                 | Ok postResp => handleHTTPResponse postResp
                 end in
  failure ≠ None
  ∧ (password (Client api) = "" →
     url_ok env (regURL api) = true →
     http_exchange env (events w ++ [EvRandString 20]) (register_request env api w) = r →
     (register env api w).1 = (api, failure))
  ∧ (password (Client api) ≠ "" →
     url_ok env (authURL api) = true →
     http_exchange env (events w) (authenticate_request env api) = r →
     (authenticate env api w).1 = (api, failure)).
Proof.
  intros Hr failure.
  assert (failure ≠ None ∧ ∀ phrase store,
            after_exchange env api phrase store r = (api, failure)) as [Hne Hafter].
  { subst failure. unfold after_exchange. destruct r as [postResp|e]; [| done].
    destruct (handleHTTPResponse_failure postResp Hr) as (e & ->). done. }
  split; [exact Hne |]. split.
  - intros Hp Hurl Hex.
    destruct (register_run env api w Hp) as [[Hbad _]|[_ ->]]; [congruence |].
    cbn [fst fs events]. by rewrite Hex, Hafter.
  - intros Hp Hurl Hex.
    destruct (authenticate_run env api w Hp) as [[Hbad _]|[_ ->]]; [congruence |].
    cbn [fst]. by rewrite Hex, Hafter.
Qed.

Lemma session_http_failure_witness :
  let env := Demo.env 422 {| data := "ok:tok123"; readErr := None |} (true, None) in
  let api := newSession "https://srv" "grp" "dev" "" in
  (register env api Demo.w0).1
  = (api, Some (apiError {| message := "HTTP request failed (422): ok:tok123";
                            permanent := true |})).
Proof.
  refine (proj1 (proj2 (session_http_failure
            (Demo.env 422 {| data := "ok:tok123"; readErr := None |} (true, None))
            (newSession "https://srv" "grp" "dev" "") Demo.w0
            (Ok {| StatusCode := 422;
                   Body := {| data := "ok:tok123"; readErr := None |} |})
            eq_refl)) eq_refl eq_refl eq_refl).
Defined.

(** X14.  [handleHTTPResponse] accepts exactly the 2xx codes: it returns
    nil if and only if the status code is in [200,300), so 1xx and 3xx
    answers are failures as well. *)
Theorem handleHTTPResponse_nil_iff_2xx (resp : Response) :
  handleHTTPResponse resp = None ↔ 200 ≤ StatusCode resp < 300.
Proof.
  rewrite <- isHTTPSuccess_spec. split.
  - intros Hnil. destruct (isHTTPSuccess (StatusCode resp)) eqn:Hc; [done |].
    destruct (handleHTTPResponse_failure resp Hc) as (e & He). congruence.
  - apply handleHTTPResponse_success.
Qed.

(** ** The credential store, continued *)

Ltac not_passed :=
  try intros _ ?;
  try match goal with
      | H : lock_passed _ _ _ |- _ =>
          destruct H as [?|[?|Hgranted]];
          [ congruence | congruence
          | match goal with
            | Ht : tryCtx _ = _ |- _ =>
                rewrite Hgranted in Ht; vm_compute in Ht; congruence
            end ]
      end.

(** X15.  [Read] only reads.  For every handle and every outcome of the
    locking step the world is left as it was and the handle stays bound
    to the same file.  A handle that holds the exclusive lock keeps its
    lock state; on any other handle that got past the locking step the
    deferred [Unlock] leaves no lock held, not even a shared lock the
    caller had taken before. *)
Theorem Read_read_only (env : Env) (lockSafeConfig : LockSafeConfig) (w : World) :
  let out := Read env lockSafeConfig w in
  out.2 = w
  ∧ filename out.1.2 = filename lockSafeConfig
  ∧ (l (fileLock lockSafeConfig) = true →
     fileLock out.1.2 = fileLock lockSafeConfig)
  ∧ (l (fileLock lockSafeConfig) = false → lock_passed env lockSafeConfig w →
     l (fileLock out.1.2) = false ∧ r (fileLock out.1.2) = false).
Proof.
  intros out. subst out.
  assert (∀ lsc, (Read_file env lsc w).2 = w
                 ∧ filename (Read_file env lsc w).1.2 = filename lsc
                 ∧ fileLock (Read_file env lsc w).1.2 = fileLock lsc) as Hfile.
  { intros lsc. unfold Read_file, afero_ReadFile, bind, get_world.
    destruct (fs w !! filename lsc) as [[buf perm|]|]; cbn [ret]; try done.
    destruct (yaml_Unmarshal env buf (config lsc)) as [c [e|]]; done. }
  unfold Read, Flock_Locked.
  destruct (l (fileLock lockSafeConfig)) eqn:Hl.
  { rewrite bool_decide_eq_false_2 by done.
    destruct (Hfile lockSafeConfig) as (Hw & Hn & Hk). done. }
  rewrite bool_decide_eq_true_2 by done.
  unfold getReadLock, TryRLockContext. rewrite bind_eq.
  destruct (r (fileLock lockSafeConfig)) eqn:Hr.
  - cbn [ret fst snd]. rewrite bool_decide_eq_false_2 by done.
    rewrite bool_decide_eq_false_2 by (intros H; by apply H).
    cbn [orb]. rewrite bind_eq.
    destruct (Hfile (set_fileLock lockSafeConfig (fileLock lockSafeConfig)))
      as (Hw & Hn & Hk).
    destruct (Read_file env _ w) as [[res lsc'] w']. cbn [fst snd] in *.
    repeat split; try done.
  - unfold bind, get_world, ret.
    destruct (tryCtx (flock_try env Shared w)) as [[|] [e|]] eqn:Ht; cbn [fst snd].
    + rewrite bool_decide_eq_false_2 by done.
      rewrite bool_decide_eq_true_2 by done. cbn [orb fst snd].
      repeat split; try done; not_passed.
    + rewrite bool_decide_eq_false_2 by done.
      rewrite bool_decide_eq_false_2 by (intros H; by apply H).
      cbn [orb].
      match goal with |- context [Read_file env ?h w] =>
        destruct (Hfile h) as (Hw & Hn & Hk);
        destruct (Read_file env h w) as [[res lsc'] w'] end.
      cbn [fst snd] in *. repeat split; try done.
    + rewrite bool_decide_eq_true_2 by done. cbn [orb fst snd].
      repeat split; try done; not_passed.
    + rewrite bool_decide_eq_true_2 by done. cbn [orb fst snd].
      repeat split; try done; not_passed.
Qed.

Lemma Read_read_only_witness :
  let out := Read env_lock_granted (NewLockSafeConfig priv_path) fs_corrupt in
  l (fileLock out.1.2) = false ∧ r (fileLock out.1.2) = false.
Proof.
  refine (proj2 (proj2 (proj2 (Read_read_only env_lock_granted
            (NewLockSafeConfig priv_path) fs_corrupt))) eq_refl _).
  right. right. reflexivity.
Defined.



(** ** Transport, continued *)




(** X18.  [GetSchedule] does not look at the status code: whatever the
    server answers, the bytes of the body are returned as the schedule
    together with the error of reading them, so a 404 or 500 page
    arrives as data with a nil error.  Only a transport error is
    reported, with an empty result. *)
Theorem GetSchedule_returns_any_body
    (env : Env) (api : CacophonyAPI) (w : World) :
  let req := {| Method := "GET"; URL := serverURL api +:+ basePath +:+ "schedules";
                Header := <["Authorization" := token (Client api)]> ∅;
                ReqBody := "" |} in
  url_ok env (URL req) = true →
  (GetSchedule env api w).1
  = match http_exchange env (events w) req with
    | Ok resp => Returns (data (Body resp), readErr (Body resp))
    | Err e => Returns ("", Some e)
    end.
Proof.
  intros req Hurl. unfold GetSchedule, http_NewRequest.
  replace (url_ok env (serverURL api +:+ basePath +:+ "schedules")) with true
    by (symmetry; exact Hurl).
  unfold httpClient_Do, http_send, bind, get_world, emit, ret, Header_Set.
  cbn [Method URL Header ReqBody fst]. fold req.
  by destruct (http_exchange env (events w) req).
Qed.

Lemma GetSchedule_returns_any_body_witness :
  (GetSchedule (Demo.env 404 {| data := "Not Found"; readErr := None |} (true, None))
     (newSession "https://srv" "grp" "dev" "pw") Demo.w0).1
  = Returns ("Not Found", None).
Proof.
  exact (GetSchedule_returns_any_body
           (Demo.env 404 {| data := "Not Found"; readErr := None |} (true, None))
           (newSession "https://srv" "grp" "dev" "pw") Demo.w0 eq_refl).
Defined.

Section TransportFacts.

Context {V Time : Type}.
Variable env : Env.
Variable lib : TransportLib V Time.

Lemma format_times_map (times : list Time) :
  format_times lib times = map (time_RFC3339_UTC lib) times.
Proof.
  unfold format_times.
  assert (∀ acc, foldl (λ dateTimes t, dateTimes ++ [formatTimestamp lib t]) acc times
                 = acc ++ map (time_RFC3339_UTC lib) times) as H.
  { induction times as [|t rest IH]; intros acc; cbn.
    - by rewrite app_nil_r.
    - rewrite IH, <- app_assoc. done. }
  exact (H []).
Qed.

End TransportFacts.

(** X19.  [GetFileDetails] asks "<server>/api/v1/files/<id>" (the id in
    decimal) with the session token and never looks at the status code:
    the body of any answer is decoded, and the struct the decoder leaves
    is returned even when decoding fails, next to the decoding error. *)
Theorem GetFileDetails_decodes_any_status
    {V Time : Type} (env : Env) (lib : TransportLib V Time)
    (api : CacophonyAPI) (fileID : Z) (w : World) (resp : Response) :
  let req := {| Method := "GET";
                URL := serverURL api +:+ "/api/v1/files/" +:+ itoa fileID;
                Header := <["Authorization" := token (Client api)]> ∅;
                ReqBody := "" |} in
  url_ok env (URL req) = true →
  http_exchange env (events w) req = Ok resp →
  GetFileDetails env lib api fileID w
  = (Returns (Some (json_Decode_FileResponse lib (Body resp)).1,
              (json_Decode_FileResponse lib (Body resp)).2),
     {| fs := fs w; events := events w ++ [EvHTTP req]; umask := umask w |}).
Proof.
  intros req Hurl Hex. unfold GetFileDetails, http_NewRequest.
  replace (url_ok env (serverURL api +:+ basePath +:+ "/files/" +:+ itoa fileID))
    with true by (symmetry; exact Hurl).
  unfold httpClient_Do, http_send, bind, get_world, emit, ret, Header_Set.
  cbn [Method URL Header ReqBody].
  change (http_exchange env (events w)
            {| Method := "GET";
               URL := serverURL api +:+ basePath +:+ "/files/" +:+ itoa fileID;
               Header := <["Authorization" := token (Client api)]> ∅;
               ReqBody := "" |} = Ok resp) in Hex.
  rewrite Hex.
  by destruct (json_Decode_FileResponse lib (Body resp)).
Qed.

Lemma GetFileDetails_decodes_any_status_witness :
  (GetFileDetails (Demo.env 401 {| data := "unauthorized"; readErr := None |}
                     (true, None))
     DemoTransport.lib (newSession "https://srv" "grp" "dev" "pw") 17 Demo.w0).1
  = Returns (Some {| File_ := File_ DemoTransport.zero_FileResponse;
                     Jwt := "unauthorized" |}, None).
Proof.
  pose proof (GetFileDetails_decodes_any_status
                (Demo.env 401 {| data := "unauthorized"; readErr := None |} (true, None))
                DemoTransport.lib (newSession "https://srv" "grp" "dev" "pw") 17 Demo.w0
                {| StatusCode := 401;
                   Body := {| data := "unauthorized"; readErr := None |} |}
                eq_refl eq_refl) as H.
  exact (f_equal fst H).
Defined.

(** X20.  [ReportEvent] posts the caller's JSON object with the key
    "dateTimes" set to the event times, formatted one by one in the
    order given; a "dateTimes" entry of the caller is replaced and every
    other key is kept.  The request goes to "<server>/api/v1/events" with
    the session token.  A transport error comes back as a temporary API
    error carrying the error's text; an answer is judged by
    [handleHTTPResponse]. *)
Theorem ReportEvent_sends_merged_details
    {V Time : Type} (env : Env) (lib : TransportLib V Time)
    (api : CacophonyAPI) (jsonDetails : string) (times : list Time) (w : World)
    (details : gmap string V) (jsonAll : string) :
  let merged :=
    <["dateTimes" := strings_value lib (map (time_RFC3339_UTC lib) times)]> details in
  let req := {| Method := "POST"; URL := serverURL api +:+ "/api/v1/events";
                Header := <["Authorization" := token (Client api)]>
                            (<["Content-Type" := "application/json"]> ∅);
                ReqBody := jsonAll |} in
  json_Unmarshal_object lib jsonDetails = Ok (Some details) →
  json_Marshal_object lib merged = Ok jsonAll →
  url_ok env (URL req) = true →
  ReportEvent env lib api jsonDetails times w
  = (Returns (match http_exchange env (events w) req with
              | Err e => Some (apiError {| message := Error_text e;
                                           permanent := false |})
              | Ok resp => handleHTTPResponse resp
              end),
     {| fs := fs w; events := events w ++ [EvHTTP req]; umask := umask w |})
  ∧ merged !! "dateTimes"
    = Some (strings_value lib (map (time_RFC3339_UTC lib) times))
  ∧ ∀ key, key ≠ "dateTimes" → merged !! key = details !! key.
Proof.
  intros merged req Hdec Henc Hurl. split; [| split].
  - unfold ReportEvent. rewrite Hdec, format_times_map. fold merged. rewrite Henc.
    unfold http_NewRequest.
    replace (url_ok env (serverURL api +:+ basePath +:+ "/events")) with true
      by (symmetry; exact Hurl).
    unfold httpClient_Do, http_send, bind, get_world, emit, ret, Header_Set.
    cbn [Method URL Header ReqBody].
    change {| Method := "POST"; URL := serverURL api +:+ basePath +:+ "/events";
              Header := <["Authorization" := token (Client api)]>
                          (<["Content-Type" := "application/json"]> ∅);
              ReqBody := jsonAll |} with req.
    by destruct (http_exchange env (events w) req).
  - subst merged. by rewrite lookup_insert_eq.
  - intros key Hkey. subst merged. by rewrite lookup_insert_ne.
Qed.

Lemma ReportEvent_sends_merged_details_witness :
  (ReportEvent (Demo.env 400 {| data := "bad event"; readErr := None |} (true, None))
     DemoTransport.lib (newSession "https://srv" "grp" "dev" "pw")
     "{trap triggered" [1541030400; 1541034000] Demo.w0).1
  = Returns (Some (apiError {| message := "HTTP request failed (400): bad event";
                               permanent := true |})).
Proof.
  pose proof (ReportEvent_sends_merged_details
                (Demo.env 400 {| data := "bad event"; readErr := None |} (true, None))
                DemoTransport.lib (newSession "https://srv" "grp" "dev" "pw")
                "{trap triggered" [1541030400; 1541034000] Demo.w0
                (<["description" := ["trap triggered"]]> ∅)
                (match DemoTransport.marshal_object
                         (<["dateTimes" := ["@1541030400"; "@1541034000"]]>
                            (<["description" := ["trap triggered"]]> ∅)) with
                 | Ok j => j
                 | Err _ => ""
                 end)) as H.
  cbn zeta in H. destruct H as (H & _).
  - reflexivity.
  - reflexivity.
  - reflexivity.
  - exact (f_equal fst H).
Defined.

(** X21.  [ReportEvent] sends nothing when the details cannot be used:
    details that do not decode give the decoding error, and details that
    decode to a nil map (JSON [null]) make the store of "dateTimes"
    panic.  In both cases no request has left the process. *)
Theorem ReportEvent_unusable_details
    {V Time : Type} (env : Env) (lib : TransportLib V Time)
    (api : CacophonyAPI) (jsonDetails : string) (times : list Time) (w : World) :
  (∀ e, json_Unmarshal_object lib jsonDetails = Err e →
        ReportEvent env lib api jsonDetails times w = (Returns (Some e), w))
  ∧ (json_Unmarshal_object lib jsonDetails = Ok None →
     ReportEvent env lib api jsonDetails times w = (Panics, w)).
Proof.
  split.
  - intros e He. unfold ReportEvent. by rewrite He.
  - intros Hnil. unfold ReportEvent. by rewrite Hnil.
Qed.

Lemma ReportEvent_unusable_details_witness :
  ReportEvent (Demo.env 200 {| data := ""; readErr := None |} (true, None))
    DemoTransport.lib (newSession "https://srv" "grp" "dev" "pw")
    "null" [1541030400] Demo.w0
  = (Panics, Demo.w0).
Proof.
  exact (proj2 (ReportEvent_unusable_details
                  (Demo.env 200 {| data := ""; readErr := None |} (true, None))
                  DemoTransport.lib (newSession "https://srv" "grp" "dev" "pw")
                  "null" [1541030400] Demo.w0) eq_refl).
Defined.

(** X22.  [UploadThermalRaw] does not report a failing input stream:
    the bytes read before the failure are sent as the file part, next to
    the "data" field holding the JSON of [{"type": "thermalRaw"}], in one
    POST to "<server>/api/v1/recordings" with the session token, and the
    result is that of the exchange alone -- a transport error as it is,
    an answer as judged by [handleHTTPResponse]. *)
Theorem UploadThermalRaw_drops_read_error
    {V Time : Type} (env : Env) (lib : TransportLib V Time)
    (api : CacophonyAPI) (r : ReadCloser) (w : World) :
  let boundary := multipart_boundary lib (events w) in
  let req :=
    {| Method := "POST"; URL := serverURL api +:+ "/api/v1/recordings";
       Header := <["Authorization" := token (Client api)]>
                   (<["Content-Type" := "multipart/form-data; boundary=" +:+ boundary]> ∅);
       ReqBody := multipart_encode lib boundary
                    [FormField "data" (json_Marshal env (<["type" := "thermalRaw"]> ∅));
                     FormFile "file" "file" (data r)] |} in
  url_ok env (URL req) = true →
  UploadThermalRaw env lib api r w
  = (match http_exchange env (events w) req with
     | Err e => Some e
     | Ok resp => handleHTTPResponse resp
     end,
     {| fs := fs w; events := events w ++ [EvHTTP req]; umask := umask w |})
  ∧ UploadThermalRaw env lib api r w
    = UploadThermalRaw env lib api {| data := data r; readErr := None |} w.
Proof.
  intros boundary req Hurl. split; [| reflexivity].
  unfold UploadThermalRaw, bind, get_world, http_NewRequest.
  replace (url_ok env (serverURL api +:+ basePath +:+ "/recordings")) with true
    by (symmetry; exact Hurl).
  unfold httpClient_Do, http_send, bind, get_world, emit, ret, Header_Set.
  cbn [Method URL Header ReqBody]. fold boundary.
  change {| Method := "POST"; URL := serverURL api +:+ basePath +:+ "/recordings";
            Header := _; ReqBody := _ |} with req.
  by destruct (http_exchange env (events w) req).
Qed.

Lemma UploadThermalRaw_drops_read_error_witness :
  (UploadThermalRaw (Demo.env 200 {| data := "ok"; readErr := None |} (true, None))
     DemoTransport.lib (newSession "https://srv" "grp" "dev" "pw")
     {| data := "CPTV"; readErr := Some (errorString "unexpected EOF") |} Demo.w0).1
  = None.
Proof.
  pose proof (UploadThermalRaw_drops_read_error
                (Demo.env 200 {| data := "ok"; readErr := None |} (true, None))
                DemoTransport.lib (newSession "https://srv" "grp" "dev" "pw")
                {| data := "CPTV"; readErr := Some (errorString "unexpected EOF") |}
                Demo.w0 eq_refl) as [H _].
  exact (f_equal fst H).
Defined.


(** X23.  [LoadPrivateConfig] reads the registered-credential path
    through a handle of its own.  After a [Write] under the exclusive
    lock to that path, and with the shared lock granted and a YAML
    library that reads back what it wrote, it returns the credential
    written, whatever its values: [Write] stores a credential that
    [IsValid] rejects (empty password or device id 0) like any other. *)
Theorem LoadPrivateConfig_after_Write
    (env : Env) (writer : LockSafeConfig) (deviceID : Z) (password_ : string)
    (w w1 : World) :
  let conf := {| Password := password_; DeviceID := deviceID |} in
  filename writer = RegisteredConfigPath →
  Flock_Locked (fileLock writer) = true →
  Write env writer deviceID password_ w = (None, w1) →
  flock_try env Shared w1 = (true, None) →
  yaml_Unmarshal env (yaml_Marshal env conf) None = (Some conf, None) →
  LoadPrivateConfig env w1 = ((Some conf, None), w1)
  ∧ (PrivateConfig_IsValid conf = true ↔ password_ ≠ "" ∧ deviceID ≠ 0).
Proof.
  intros conf Hname Hlocked Hwrite Hshared Hyaml. split.
  - unfold Write in Hwrite. rewrite Hlocked, Hname in Hwrite.
    apply afero_WriteFile_success in Hwrite as [p Hfile].
    unfold LoadPrivateConfig. rewrite bind_eq.
    destruct (Read_past_lock env (NewLockSafeConfig RegisteredConfigPath) w1)
      as (lsc' & Hfn & Hcfg & Hres & Hw).
    { right. right. exact Hshared. }
    destruct (Read env (NewLockSafeConfig RegisteredConfigPath) w1)
      as [[res lsc''] w1'].
    cbn [fst snd ret] in *. subst w1'. f_equal. rewrite Hres.
    rewrite (Read_file_present env lsc' w1 _ p) by (by rewrite Hfn).
    rewrite Hcfg. cbn [config NewLockSafeConfig]. fold conf. by rewrite Hyaml.
  - unfold PrivateConfig_IsValid. cbn [Password DeviceID].
    rewrite andb_true_iff, !bool_decide_eq_true. done.
Qed.

Lemma LoadPrivateConfig_after_Write_witness :
  let writer :=
    (GetExLock env_lock_granted (NewLockSafeConfig RegisteredConfigPath)
       w_provisioned).1.2 in
  LoadPrivateConfig env_lock_granted (Write env_lock_granted writer 0 "" w_provisioned).2
  = ((Some {| Password := ""; DeviceID := 0 |}, None),
     (Write env_lock_granted writer 0 "" w_provisioned).2).
Proof.
  refine (proj1 (LoadPrivateConfig_after_Write env_lock_granted
            (GetExLock env_lock_granted (NewLockSafeConfig RegisteredConfigPath)
               w_provisioned).1.2
            0 "" w_provisioned _ eq_refl eq_refl _ eq_refl _)).
  - vm_compute. reflexivity.
  - vm_compute. reflexivity.
Defined.

Lemma replace_loopback_map_witness :
  replace_loopback "possum-7" ["127.0.0.1" +:+ tab +:+ "localhost"; "::1 localhost"]
    !! 0%nat
  = Some ("127.0.0.1" +:+ tab +:+ "possum-7").
Proof.
  exact (proj2 (proj2 (replace_loopback_map "possum-7"
                  ["127.0.0.1" +:+ tab +:+ "localhost"; "::1 localhost"]))
           0%nat ("127.0.0.1" +:+ tab +:+ "localhost") eq_refl).
Defined.

Lemma updateConfNameAndGroup_frame_witness :
  updateConfNameAndGroup DemoConfig.codec DemoConfig.notRegistered
    "possum-7" "birds" DeviceConfigPath Demo.w0
  = (Some DemoConfig.notRegistered, Demo.w0).
Proof.
  exact (proj1 (updateConfNameAndGroup_frame DemoConfig.codec DemoConfig.notRegistered
                  "possum-7" "birds" DeviceConfigPath Demo.w0)
           DemoConfig.notRegistered eq_refl).
Defined.
